(** * polymorph: the resolve / exec-or-fetch / install / exec pipeline

    A shallow embedding of [cmd/exec.go], [pkg/templates], [pkg/tarball]
    and [pkg/binary] of mdbooth/polymorph, and the properties of the
    launcher that follow from it.

    Strings are [string]; the Go maps [map[string]string] are
    [gmap string string]; nil-able pointers are [option]; the process
    environment (file system, network, random source, exec) is an explicit
    world threaded through every call. *)

From Stdlib Require Import ZArith Ascii String List Lia.
From Stdlib.Strings Require Import Byte.
From stdpp Require Import base gmap strings list.

Local Open Scope Z_scope.
Set Warnings "-abstract-large-number".

(** ** Go's [path] package: [Clean], [Join], [Base]

    The slash-separated lexical path functions the launcher calls.  A path is
    cut at every ['/'] into its elements; [Clean] replays the elements on a
    stack. *)
Module path.

Definition slash : ascii := "/"%char.

(** The elements of a path: the pieces between slashes, [split ""] being
    [[""]]. *)
Fixpoint split (s : string) : list string :=
  match s with
  | EmptyString => [EmptyString]
  | String c s' =>
      if decide (c = slash) then EmptyString :: split s'
      else match split s' with
           | seg :: rest => String c seg :: rest
           | [] => [String c EmptyString]
           end
  end.

(** [strings.Join(elems, "/")]. *)
Fixpoint unsplit (segs : list string) : string :=
  match segs with
  | [] => ""
  | [seg] => seg
  | seg :: rest => seg +:+ "/" +:+ unsplit rest
  end.

Definition rooted (p : string) : bool :=
  match p with
  | String c _ => bool_decide (c = slash)
  | EmptyString => false
  end.

(** One element processed by [Clean]; the stack holds the output elements,
    last one first.  Empty and [.] elements are dropped; [..] removes the
    last real element, is dropped at the root, and is kept in front of a
    relative path. *)
Definition step (r : bool) (stack : list string) (seg : string) : list string :=
  if decide (seg = "") then stack
  else if decide (seg = ".") then stack
  else if decide (seg = "..") then
    match stack with
    | top :: below =>
        if decide (top = "..") then (if r then stack else ".." :: stack)
        else below
    | [] => if r then [] else [".."]
    end
  else seg :: stack.

Definition norm (r : bool) (segs stack : list string) : list string :=
  fold_left (step r) segs stack.

Definition render (r : bool) (segs : list string) : string :=
  if r then "/" +:+ unsplit segs
  else match segs with [] => "." | _ => unsplit segs end.

Definition Clean (p : string) : string :=
  if decide (p = "") then "."
  else render (rooted p) (rev (norm (rooted p) (split p) [])).

(** The buffer loop of [Join]: leading empty elements are skipped, every
    later element is appended after a slash. *)
Fixpoint join_buf (buf : string) (elem : list string) : string :=
  match elem with
  | [] => buf
  | e :: rest =>
      if decide (buf = "") then
        (if decide (e = "") then join_buf buf rest else join_buf e rest)
      else join_buf (buf +:+ "/" +:+ e) rest
  end.

Definition Join (elem : list string) : string :=
  if decide (join_buf "" elem = "") then "" else Clean (join_buf "" elem).

(** [Base]: trailing slashes are stripped, the last element is taken, and a
    path of slashes only is ["/"]. *)
Fixpoint strip_slashes (p : string) : string :=
  match p with
  | EmptyString => EmptyString
  | String c p' =>
      let t := strip_slashes p' in
      if decide (c = slash) then
        (if decide (t = "") then "" else String c t)
      else String c t
  end.


Definition Base (p : string) : string :=
  if decide (p = "") then "."
  else
    let q := List.last (split (strip_slashes p)) "" in
    if decide (q = "") then "/" else q.

End path.


(** ** Errors

    Go [error] values as the launcher builds and inspects them: bare
    [syscall.Errno]s, the [*fs.PathError] and [*os.LinkError] of package
    [os], messages made by [fmt.Errorf] with [%s] only ([ErrNew]), and
    wrappers made with [%w] ([ErrWrap], which [errors.Is] looks through). *)
Inductive Errno :=
  | ENOENT | EEXIST | ENOTDIR | EISDIR | EACCES | ENOEXEC | EINVAL | EIO.

#[global] Instance Errno_eq_dec : EqDecision Errno.
Proof. solve_decision. Defined.

Inductive error :=
  | ErrSyscall (e : Errno)
  | ErrPath (op p : string) (inner : error)
  | ErrLink (op old new : string) (inner : error)
  | ErrNew (msg : string)
  | ErrWrap (prefix : string) (inner : error).

Inductive result (A : Type) :=
  | Ok (a : A)
  | Err (e : error).
Arguments Ok {A} a.
Arguments Err {A} e.

Definition Errno_text (e : Errno) : string :=
  match e with
  | ENOENT => "no such file or directory"
  | EEXIST => "file exists"
  | ENOTDIR => "not a directory"
  | EISDIR => "is a directory"
  | EACCES => "permission denied"
  | ENOEXEC => "exec format error"
  | EINVAL => "invalid argument"
  | EIO => "input/output error"
  end.

(** The [Error()] method. *)
Fixpoint Error (e : error) : string :=
  match e with
  | ErrSyscall n => Errno_text n
  | ErrPath op p inner => op +:+ " " +:+ p +:+ ": " +:+ Error inner
  | ErrLink op old new inner =>
      op +:+ " " +:+ old +:+ " " +:+ new +:+ ": " +:+ Error inner
  | ErrNew msg => msg
  | ErrWrap prefix inner => prefix +:+ Error inner
  end.

(** [errors.Is(err, target)] for a [syscall.Errno] target: the chain of
    [Unwrap]s is followed down to a bare errno. *)
Fixpoint errors_Is (e : error) (target : Errno) : bool :=
  match e with
  | ErrSyscall n => bool_decide (n = target)
  | ErrPath _ _ inner => errors_Is inner target
  | ErrLink _ _ _ inner => errors_Is inner target
  | ErrNew _ => false
  | ErrWrap _ inner => errors_Is inner target
  end.

(** ** [text/template], as far as the launcher's patterns use it

    Literal text and field actions [{{.name}}] (blanks allowed around the
    field), evaluated against a [map[string]string].  A pattern with any
    other action is reported as [Unmodelled]: nothing is said about it. *)
Module template.

Inductive piece :=
  | PText (s : string)
  | PAction (s : string).

Definition push (c : ascii) (ps : list piece) : list piece :=
  match ps with
  | PText s :: rest => PText (String c s) :: rest
  | PAction s :: rest => PAction (String c s) :: rest
  | [] => []
  end.

(** The lexer: text up to the next [{{], an action up to the next [}}].
    [act] tells whether an action is open; [None] is an unclosed action. *)
Fixpoint lex (act : bool) (s : string) : option (list piece) :=
  match s with
  | EmptyString => if act then None else Some [PText ""]
  | String c s' =>
      match s' with
      | String c' s'' =>
          if negb act && bool_decide (c = "{"%char) && bool_decide (c' = "{"%char)
          then (fun ps => PText "" :: ps) <$> lex true s''
          else if act && bool_decide (c = "}"%char) && bool_decide (c' = "}"%char)
          then (fun ps => PAction "" :: ps) <$> lex false s''
          else push c <$> lex act s'
      | EmptyString => push c <$> lex act s'
      end
  end.

Definition is_space (c : ascii) : bool :=
  bool_decide (c = " "%char) || bool_decide (c = "009"%char)
  || bool_decide (c = "010"%char) || bool_decide (c = "013"%char).

Definition is_letter (c : ascii) : bool :=
  let n := nat_of_ascii c in
  ((65 <=? n) && (n <=? 90) || (97 <=? n) && (n <=? 122) || (n =? 95))%nat.

Definition is_alnum (c : ascii) : bool :=
  let n := nat_of_ascii c in
  (is_letter c || (48 <=? n) && (n <=? 57))%nat.

Fixpoint forallb_string (f : ascii -> bool) (s : string) : bool :=
  match s with
  | EmptyString => true
  | String c s' => f c && forallb_string f s'
  end.

Fixpoint trim_left (s : string) : string :=
  match s with
  | String c s' => if is_space c then trim_left s' else s
  | EmptyString => EmptyString
  end.

Fixpoint trim_right (s : string) : string :=
  match s with
  | EmptyString => EmptyString
  | String c s' =>
      let t := trim_right s' in
      if is_space c && bool_decide (t = "") then "" else String c t
  end.

Definition is_ident (s : string) : bool :=
  match s with
  | String c s' => is_letter c && forallb_string is_alnum s'
  | EmptyString => false
  end.

Inductive node :=
  | TextNode (s : string)
  | FieldNode (name : string).

(** An action of the fragment is a dot followed by an identifier. *)
Definition parse_action (body : string) : option node :=
  match trim_right (trim_left body) with
  | String c name =>
      if bool_decide (c = "."%char) && is_ident name
      then Some (FieldNode name) else None
  | EmptyString => None
  end.

Inductive parsed :=
  | Tree (nodes : list node)
  | SyntaxError (msg : string)
  | Unmodelled.

Fixpoint parse_pieces (ps : list piece) : option (list node) :=
  match ps with
  | [] => Some []
  | PText s :: rest => (fun ns => TextNode s :: ns) <$> parse_pieces rest
  | PAction s :: rest =>
      match parse_action s with
      | Some n => (fun ns => n :: ns) <$> parse_pieces rest
      | None => None
      end
  end.

Definition Parse (text : string) : parsed :=
  match lex false text with
  | None => SyntaxError "unclosed action"
  | Some ps =>
      match parse_pieces ps with
      | Some ns => Tree ns
      | None => Unmodelled
      end
  end.

(** The [missingkey] option of a template; [New] sets [mapInvalid]. *)
Inductive missingKeyAction := mapInvalid | mapZeroValue | mapError.

Record Template := {
  tree : list node;
  missingKey : missingKeyAction;
}.

Definition eval_field (opt : missingKeyAction) (params : gmap string string)
    (name : string) : result string :=
  match params !! name with
  | Some v => Ok v
  | None =>
      match opt with
      | mapInvalid => Ok "<no value>"
      | mapZeroValue => Ok ""
      | mapError =>
          Err (ErrNew ("map has no entry for key " +:+ name))
      end
  end.

Fixpoint exec_nodes (opt : missingKeyAction) (params : gmap string string)
    (ns : list node) : result string :=
  match ns with
  | [] => Ok ""
  | TextNode s :: rest =>
      match exec_nodes opt params rest with
      | Ok out => Ok (s +:+ out)
      | Err e => Err e
      end
  | FieldNode name :: rest =>
      match eval_field opt params name with
      | Ok v =>
          match exec_nodes opt params rest with
          | Ok out => Ok (v +:+ out)
          | Err e => Err e
          end
      | Err e => Err e
      end
  end.

Definition Execute (t : Template) (params : gmap string string) : result string :=
  exec_nodes (missingKey t) params (tree t).

End template.

(** ** The world outside the process

    The file system maps a resolved path (its list of elements from the
    root) to a node; the root itself always exists.  Permissions are stored
    and never checked, and there are no symbolic links. *)
Inductive node :=
  | Dir (perm : Z)
  | File (perm : Z) (content : list byte).

Definition FS : Type := list string -> option node.

Inductive event :=
  | EvExec (argv0 : string) (argv : list string)
  | EvHttpGet (url : string)
  | EvStderr (msg : string)
  | EvFetch.

#[global] Instance event_eq_dec : EqDecision event.
Proof. solve_decision. Defined.

#[global] Instance byte_eq_dec : EqDecision byte := Byte.byte_eq_dec.

Record World := {
  fs : FS;
  seed : nat;
  trace : list event;
}.

Definition set_fs (f : FS) (w : World) : World :=
  {| fs := f; seed := seed w; trace := trace w |}.

Definition log (ev : event) (w : World) : World :=
  {| fs := fs w; seed := seed w; trace := trace w ++ [ev] |}.

(** Calls that return [(T, error)] or [error] and may change the world. *)
Definition M (A : Type) : Type := World -> result A * World.

Definition ret {A} (a : A) : M A := fun w => (Ok a, w).

Definition fail {A} (e : error) : M A := fun w => (Err e, w).

Definition bind {A B} (m : M A) (k : A -> M B) : M B :=
  fun w =>
    match m w with
    | (Ok a, w') => k a w'
    | (Err e, w') => (Err e, w')
    end.

Notation "'let*' x ':=' m 'in' k" := (bind m (fun x => k))
  (at level 10, x pattern, m at level 100, k at level 200).

(** [if err != nil { return fmt.Errorf(prefix + "%w", err) }]. *)
Definition wrap {A} (prefix : string) (m : M A) : M A :=
  fun w =>
    match m w with
    | (Err e, w') => (Err (ErrWrap prefix e), w')
    | r => r
    end.

(** [defer cleanup()]: runs when the rest of the function returns, whatever
    it returns. *)
Definition defer {A} (cleanup : World -> World) (m : M A) : M A :=
  fun w => let (r, w') := m w in (r, cleanup w').

(** An HTTP response: the status code, and the body as the bytes that can be
    read from it before the stream ends or fails. *)
Record Response := {
  StatusCode : Z;
  Body : list byte;
  BodyErr : option error;
}.

(** Package [archive/tar], as the reader sees a stream: entries, then
    [io.EOF] or an error; an entry's data may fail while it is copied. *)
Module tar.

Record Header := {
  Name : string;
  Mode : Z;
  Typeflag : ascii;
}.

Inductive stream :=
  | EOF
  | Fail (e : error)
  | Entry (h : Header) (data : list byte) (derr : option error) (rest : stream).

Definition TypeReg : ascii := "0"%char.
Definition TypeDir : ascii := "5"%char.

End tar.

(** [tarball.Fetcher] and [binary.Fetcher]: the same structure. *)
Record Fetcher := { URL : string }.

Record ExecTemplate := {
  Name : string;
  Directory : string;
  Params : gmap string string;
  Executables : gmap string string;
  TarballFetcher : option Fetcher;
  BinaryFetcher : option Fetcher;
}.

(** The collaborators the launcher only calls: the cache directory of the
    user, reading and decoding a template file, the HTTP client, the gzip
    and tar decoders (reading a response body), [text/template] on the
    patterns outside the fragment of [template.Parse], the random source of
    [os.MkdirTemp], and [syscall.Exec] ([None]: the process image was
    replaced). *)
Record Env := {
  UserCacheDir : result string;
  readTemplateFile : string -> result ExecTemplate;
  http_Get : string -> result Response;
  gzip_tar : list byte -> option error -> result tar.stream;
  text_template : string -> gmap string string -> result string;
  random : nat -> N;
  syscall_Exec : FS -> string -> list string -> option Errno;
}.

(** ** Package [os] *)
Module os.

(** Path resolution, from the root (also for a relative path), without
    symbolic links. *)
Definition resolve (name : string) : list string :=
  rev (path.norm true (path.split name) []).

Definition lookup (f : FS) (k : list string) : option node :=
  match k with
  | [] => Some (Dir 493)
  | _ => f k
  end.

Definition insert (k : list string) (n : node) (f : FS) : FS :=
  fun k' => if decide (k' = k) then Some n else f k'.

Definition remove_tree (k : list string) (f : FS) : FS :=
  fun k' => if decide (k `prefix_of` k') then None else f k'.

Definition move_tree (old new : list string) (f : FS) : FS :=
  fun k' =>
    if decide (new `prefix_of` k') then f (old ++ drop (length new) k')
    else if decide (old `prefix_of` k') then None
    else f k'.

Definition PathError {A} (op name : string) (e : Errno) : M A :=
  fail (ErrPath op name (ErrSyscall e)).

Definition LinkError {A} (op old new : string) (e : Errno) : M A :=
  fail (ErrLink op old new (ErrSyscall e)).

Definition Mkdir (name : string) (perm : Z) : M unit :=
  fun w =>
    let k := resolve name in
    match lookup (fs w) k with
    | Some _ => PathError "mkdir" name EEXIST w
    | None =>
        match lookup (fs w) (removelast k) with
        | None => PathError "mkdir" name ENOENT w
        | Some (File _ _) => PathError "mkdir" name ENOTDIR w
        | Some (Dir _) => (Ok tt, set_fs (insert k (Dir perm) (fs w)) w)
        end
    end.

(** [MkdirAll] walks down from the root: existing directories are kept,
    missing ones created, a file in the way is [ENOTDIR]. *)
Fixpoint mkdir_all (done todo : list string) (perm : Z) (f : FS)
    : option Errno * FS :=
  match todo with
  | [] => (None, f)
  | seg :: rest =>
      let k := done ++ [seg] in
      match lookup f k with
      | Some (Dir _) => mkdir_all k rest perm f
      | Some (File _ _) => (Some ENOTDIR, f)
      | None => mkdir_all k rest perm (insert k (Dir perm) f)
      end
  end.

Definition MkdirAll (name : string) (perm : Z) : M unit :=
  fun w =>
    if decide (name = "") then PathError "mkdir" name ENOENT w
    else
      match mkdir_all [] (resolve name) perm (fs w) with
      | (None, f) => (Ok tt, set_fs f w)
      | (Some e, f) => PathError "mkdir" name e (set_fs f w)
      end.

Definition digit (n : N) : ascii := ascii_of_N (48 + n mod 10).

Fixpoint uitoa_go (fuel : nat) (n : N) (acc : string) : string :=
  let acc' := String (digit n) acc in
  match fuel with
  | O => acc'
  | S fuel' => if (n <? 10)%N then acc' else uitoa_go fuel' (n / 10)%N acc'
  end.

Definition uitoa (n : N) : string := uitoa_go (N.size_nat n) n "".

Definition nextRandom (env : Env) : M string :=
  fun w =>
    (Ok (uitoa (random env (seed w))),
     {| fs := fs w; seed := S (seed w); trace := trace w |}).

Fixpoint has_slash (s : string) : bool :=
  match s with
  | EmptyString => false
  | String c s' => bool_decide (c = path.slash) || has_slash s'
  end.

Fixpoint cut_last_star (s : string) : option (string * string) :=
  match s with
  | EmptyString => None
  | String c s' =>
      match cut_last_star s' with
      | Some (p, q) => Some (String c p, q)
      | None => if decide (c = "*"%char) then Some ("", s') else None
      end
  end.

Definition prefixAndSuffix (pattern : string) : result (string * string) :=
  if has_slash pattern then Err (ErrNew "pattern contains path separator")
  else
    match cut_last_star pattern with
    | Some ps => Ok ps
    | None => Ok (pattern, "")
    end.

Fixpoint ends_with_slash (s : string) : bool :=
  match s with
  | EmptyString => false
  | String c EmptyString => bool_decide (c = path.slash)
  | String _ s' => ends_with_slash s'
  end.

Definition joinPath (dir name : string) : string :=
  if ends_with_slash dir then dir +:+ name else dir +:+ "/" +:+ name.

Fixpoint mkdir_temp_loop (env : Env) (tries : nat) (dir prefix suffix : string)
    : M string :=
  fun w =>
    match nextRandom env w with
    | (Err e, w1) => (Err e, w1)
    | (Ok r, w1) =>
        let name := prefix +:+ r +:+ suffix in
        match Mkdir name 448 w1 with
        | (Ok _, w2) => (Ok name, w2)
        | (Err e, w2) =>
            if errors_Is e EEXIST then
              match tries with
              | S tries' => mkdir_temp_loop env tries' dir prefix suffix w2
              | O =>
                  PathError "mkdirtemp" (dir +:+ "/" +:+ prefix +:+ "*" +:+ suffix)
                    EEXIST w2
              end
            else if errors_Is e ENOENT then
              match lookup (fs w2) (resolve dir) with
              | None => PathError "stat" dir ENOENT w2
              | Some _ => (Err e, w2)
              end
            else (Err e, w2)
        end
    end.

Definition MkdirTemp (env : Env) (dir pattern : string) : M string :=
  match prefixAndSuffix pattern with
  | Err e => fail (ErrPath "mkdirtemp" pattern e)
  | Ok (prefix, suffix) =>
      mkdir_temp_loop env 9999 dir (joinPath dir prefix) suffix
  end.

(** [OpenFile(name, O_CREATE|O_WRONLY, perm)]: an existing file is opened as
    it is (not truncated), a missing one is created empty.  The handle is
    the resolved path. *)
Definition OpenFile (name : string) (perm : Z) : M (list string) :=
  fun w =>
    let k := resolve name in
    match lookup (fs w) k with
    | Some (Dir _) => PathError "open" name EISDIR w
    | Some (File _ _) => (Ok k, w)
    | None =>
        match lookup (fs w) (removelast k) with
        | None => PathError "open" name ENOENT w
        | Some (File _ _) => PathError "open" name ENOTDIR w
        | Some (Dir _) => (Ok k, set_fs (insert k (File perm []) (fs w)) w)
        end
    end.

(** Writing [data] from offset 0 over the contents of an open file. *)
Definition write (k : list string) (data : list byte) (f : FS) : FS :=
  match f k with
  | Some (File perm old) =>
      insert k (File perm (data ++ drop (length data) old)) f
  | _ => f
  end.

(** [io.Copy(f, src)]: everything read from the source is written; a read
    error is returned after that. *)
Definition Copy (k : list string) (data : list byte) (derr : option error)
    : M unit :=
  fun w =>
    let w' := set_fs (write k data (fs w)) w in
    match derr with
    | Some e => (Err e, w')
    | None => (Ok tt, w')
    end.

(** [Rename]: an existing directory at the new name is refused with
    [EEXIST]; otherwise the node and everything below it move. *)
Definition Rename (oldname newname : string) : M unit :=
  fun w =>
    let ko := resolve oldname in
    let kn := resolve newname in
    let f := fs w in
    match lookup f ko with
    | None => LinkError "rename" oldname newname ENOENT w
    | Some o =>
        match lookup f kn with
        | Some (Dir _) =>
            if decide (ko = kn) then
              (if decide (newname = oldname)
               then LinkError "rename" oldname newname EEXIST w
               else (Ok tt, w))
            else LinkError "rename" oldname newname EEXIST w
        | Some (File _ _) =>
            if decide (ko = kn) then (Ok tt, w)
            else
              match o with
              | Dir _ => LinkError "rename" oldname newname ENOTDIR w
              | File _ _ => (Ok tt, set_fs (move_tree ko kn f) w)
              end
        | None =>
            match lookup f (removelast kn) with
            | None => LinkError "rename" oldname newname ENOENT w
            | Some (File _ _) => LinkError "rename" oldname newname ENOTDIR w
            | Some (Dir _) =>
                if decide (ko `prefix_of` kn)
                then LinkError "rename" oldname newname EINVAL w
                else (Ok tt, set_fs (move_tree ko kn f) w)
            end
        end
    end.

(** [RemoveAll]: the node and everything below it; a missing path is not an
    error. *)
Definition RemoveAll (name : string) (w : World) : World :=
  set_fs (remove_tree (resolve name) (fs w)) w.

End os.

(** ** [templates.ExpandTemplate]

    [template.New("").Parse(templateString)] followed by [Execute] into a
    buffer; no option is set on the template. *)
Definition ExpandTemplate (env : Env) (templateString : string)
    (params : gmap string string) : result string :=
  match template.Parse templateString with
  | template.SyntaxError msg => Err (ErrNew ("template: :1: " +:+ msg))
  | template.Unmodelled => text_template env templateString params
  | template.Tree ns =>
      template.Execute
        {| template.tree := ns; template.missingKey := template.mapInvalid |}
        params
  end.

Definition lift {A} (r : result A) : M A := fun w => (r, w).

Definition newline : string := String "010"%char "".

Definition Stderr (msg : string) : M unit := fun w => (Ok tt, log (EvStderr msg) w).

Definition http_GET (env : Env) (url : string) : M Response :=
  fun w => (http_Get env url, log (EvHttpGet url) w).

(** [os.FileMode(header.Mode)]: [int64] to [uint32]. *)
Definition FileMode (mode : Z) : Z := mode mod 2 ^ 32.

(** ** Package [tarball] *)
Module tarball.

Fixpoint untar (r : tar.stream) (dir : string) (w : World) {struct r}
    : result unit * World :=
  match r with
  | tar.EOF => ret tt w
  | tar.Fail e => fail (ErrWrap "error reading tarball: " e) w
  | tar.Entry header data derr rest =>
      let target := path.Join [dir; tar.Name header] in
      let mode := FileMode (tar.Mode header) in
      let entry : M unit :=
        if decide (tar.Typeflag header = tar.TypeDir) then
          wrap ("error creating directory " +:+ target +:+ ": ")
            (os.MkdirAll target mode)
        else if decide (tar.Typeflag header = tar.TypeReg) then
          let* f := wrap ("error creating file " +:+ target +:+ ": ")
                      (os.OpenFile target mode) in
          wrap ("error writing file " +:+ target +:+ ": ") (os.Copy f data derr)
        else ret tt in
      match entry w with
      | (Ok _, w') => untar rest dir w'
      | (Err e, w') => (Err e, w')
      end
  end.

Definition Fetch (env : Env) (fetcher : Fetcher)
    (params : gmap string string) (tempDir : string) : M unit :=
  let* tarballURL :=
    wrap "error expanding tarball fetch url template: "
      (lift (ExpandTemplate env (URL fetcher) params)) in
  let* _ := Stderr ("Downloading tarball from " +:+ tarballURL +:+ "..." +:+ newline) in
  let* resp :=
    wrap ("error downloading tarball " +:+ tarballURL +:+ ": ")
      (http_GET env tarballURL) in
  let* uncompressed :=
    wrap "error creating gzip reader: "
      (lift (gzip_tar env (Body resp) (BodyErr resp))) in
  untar uncompressed tempDir.

End tarball.

(** ** Package [binary] *)
Module binary.

Definition Fetch (env : Env) (fetcher : Fetcher)
    (params : gmap string string) (tempDir executable : string) : M unit :=
  let* binaryURL :=
    wrap "error expanding binary fetch url template: "
      (lift (ExpandTemplate env (URL fetcher) params)) in
  let filePath := path.Join [tempDir; executable] in
  let* f := wrap ("error opening file " +:+ filePath +:+ ": ")
              (os.OpenFile filePath 493) in
  let* _ := Stderr ("Downloading binary from " +:+ binaryURL +:+ "..." +:+ newline) in
  let* resp :=
    wrap ("error downloading binary " +:+ binaryURL +:+ ": ")
      (http_GET env binaryURL) in
  wrap ("error writing to " +:+ filePath +:+ ": ")
    (os.Copy f (Body resp) (BodyErr resp)).

End binary.

(** ** [cmd/exec.go] *)

(** The [switch] of the fetcher closure and the final [os.Rename]: what runs
    between the [defer os.RemoveAll(tempDir)] and its execution. *)
Definition dispatch (env : Env) (execTemplate : ExecTemplate)
    (tempDir executableBase : string) : M unit :=
  match TarballFetcher execTemplate, BinaryFetcher execTemplate with
  | Some f, _ => tarball.Fetch env f (Params execTemplate) tempDir
  | None, Some f =>
      binary.Fetch env f (Params execTemplate) tempDir executableBase
  | None, None => fail (ErrNew "no fetcher specified")
  end.

Definition fetcher (env : Env) (execTemplate : ExecTemplate)
    (cacheDir execCacheDir directory versionedCacheDir executableBase : string)
    : M unit :=
  let* _ := wrap ("error creating cache dir " +:+ cacheDir +:+ ": ")
              (os.MkdirAll execCacheDir 493) in
  let* tempDir :=
    wrap ("error creating temporary directory "
          +:+ path.Join [cacheDir; directory] +:+ ": ")
      (os.MkdirTemp env execCacheDir directory) in
  defer (os.RemoveAll tempDir)
    (let* _ := dispatch env execTemplate tempDir executableBase in
     os.Rename tempDir versionedCacheDir).

Definition getConfig (env : Env) (executableName templateFile : string)
    : result (string * M unit) :=
  match readTemplateFile env templateFile with
  | Err err =>
      Err (ErrNew ("error reading template " +:+ templateFile +:+ ": "
                   +:+ Error err))
  | Ok execTemplate =>
      match ExpandTemplate env (Directory execTemplate) (Params execTemplate) with
      | Err err =>
          Err (ErrNew ("error expanding directory template: " +:+ Error err))
      | Ok directory =>
          match UserCacheDir env with
          | Err err =>
              Err (ErrNew ("error getting user cache dir: " +:+ Error err))
          | Ok cacheDir =>
              let execCacheDir :=
                path.Join [cacheDir; "polymorph"; Name execTemplate] in
              let versionedCacheDir := path.Join [execCacheDir; directory] in
              let executableBase := path.Base executableName in
              let executable :=
                match Executables execTemplate !! executableBase with
                | Some executable => executable
                | None => executableBase
                end in
              Ok (path.Join [versionedCacheDir; executable],
                  fetcher env execTemplate cacheDir execCacheDir directory
                    versionedCacheDir executableBase)
          end
      end
  end.

(** How [runExec] ends: the process image was replaced by the executable, or
    it returned an error (it never returns [nil]). *)
Inductive outcome :=
  | Replaced
  | Returned (err : error).

Definition Exec (env : Env) (argv0 : string) (argv : list string)
    (w : World) : option Errno * World :=
  (syscall_Exec env (fs w) argv0 argv, log (EvExec argv0 argv) w).

(** [args] is [templateFile :: executableName :: rest]: the command requires
    at least two arguments. *)
Definition runExec (env : Env) (templateFile executableName : string)
    (rest : list string) (w : World) : outcome * World :=
  match getConfig env executableName templateFile with
  | Err err => (Returned err, w)
  | Ok (execPath, fetchFunc) =>
      let execArgs := executableName :: rest in
      match Exec env execPath execArgs w with
      | (None, w1) => (Replaced, w1)
      | (Some errno, w1) =>
          if negb (errors_Is (ErrSyscall errno) ENOENT) then
            (Returned (ErrWrap ("error executing " +:+ executableName +:+ ": ")
                         (ErrSyscall errno)), w1)
          else
            match fetchFunc (log EvFetch w1) with
            | (Err err, w2) =>
                (Returned (ErrWrap ("error fetching " +:+ executableName +:+ ": ")
                             err), w2)
            | (Ok _, w2) =>
                match Exec env execPath execArgs w2 with
                | (None, w3) => (Replaced, w3)
                | (Some errno2, w3) =>
                    (Returned (ErrWrap ("error executing " +:+ executableName +:+ ": ")
                                 (ErrSyscall errno2)), w3)
                end
            end
      end
  end.

(** The template without its [binary] table. *)
Definition without_binary (t : ExecTemplate) : ExecTemplate :=
  {| Name := Name t;
     Directory := Directory t;
     Params := Params t;
     Executables := Executables t;
     TarballFetcher := TarballFetcher t;
     BinaryFetcher := None |}.

(** The same environment with another status code on every response. *)
Definition with_status (f : Z -> Z) (env : Env) : Env :=
  {| UserCacheDir := UserCacheDir env;
     readTemplateFile := readTemplateFile env;
     http_Get := fun url =>
       match http_Get env url with
       | Ok resp =>
           Ok {| StatusCode := f (StatusCode resp);
                 Body := Body resp;
                 BodyErr := BodyErr resp |}
       | Err e => Err e
       end;
     gzip_tar := gzip_tar env;
     text_template := text_template env;
     random := random env;
     syscall_Exec := syscall_Exec env |}.

(** The calls of [http.Get] in a trace. *)
Definition http_calls (evs : list event) : list string :=
  omap (fun ev => match ev with EvHttpGet url => Some url | _ => None end) evs.

(** The number of calls of the fetch function in a trace. *)
Definition fetch_calls (evs : list event) : nat :=
  length (filter (fun ev => ev = EvFetch) evs).

(** ** The command [exec]

    [cobra.MinimumNArgs(2)] validates the arguments before [Run] is called;
    [Run] calls [runExec], which indexes [args[0]] and [args[1]], prints the
    error it returns and exits with status 1. *)
Inductive termination :=
  | ProcessReplaced
  | Exited (code : Z)
  | ArgsRefused (err : error)
  | IndexPanic.

Definition MinimumNArgs (n : nat) (args : list string) : option error :=
  if (length args <? n)%nat then
    Some (ErrNew ("requires at least " +:+ os.uitoa (N.of_nat n)
                  +:+ " arg(s), only received "
                  +:+ os.uitoa (N.of_nat (length args))))
  else None.

Definition execCmd_Run (env : Env) (args : list string) (w : World)
    : termination * World :=
  match args with
  | templateFile :: executableName :: rest =>
      match runExec env templateFile executableName rest w with
      | (Replaced, w') => (ProcessReplaced, w')
      | (Returned err, w') =>
          (Exited 1, log (EvStderr (Error err +:+ newline)) w')
      end
  | _ => (IndexPanic, w)
  end.

Definition execCmd (env : Env) (args : list string) (w : World)
    : termination * World :=
  match MinimumNArgs 2 args with
  | Some err => (ArgsRefused err, w)
  | None => execCmd_Run env args w
  end.

(** ** The earlier [cmd/exec.go]

    The launcher before the fetchers moved to packages of their own: one
    function fetches a tarball into the cache, with its own [untar] and
    [expandTemplate]. *)
Module legacy.

Definition expandTemplate (env : Env) (templateString : string)
    (params : gmap string string) : result string :=
  match template.Parse templateString with
  | template.SyntaxError msg => Err (ErrNew ("template: :1: " +:+ msg))
  | template.Unmodelled => text_template env templateString params
  | template.Tree ns =>
      template.Execute
        {| template.tree := ns; template.missingKey := template.mapInvalid |}
        params
  end.

Fixpoint untar (r : tar.stream) (dir : string) (w : World) {struct r}
    : result unit * World :=
  match r with
  | tar.EOF => ret tt w
  | tar.Fail e => fail (ErrWrap "error reading tarball: " e) w
  | tar.Entry header data derr rest =>
      let target := path.Join [dir; tar.Name header] in
      let mode := FileMode (tar.Mode header) in
      let entry : M unit :=
        if decide (tar.Typeflag header = tar.TypeDir) then
          wrap ("error creating directory " +:+ target +:+ ": ")
            (os.MkdirAll target mode)
        else if decide (tar.Typeflag header = tar.TypeReg) then
          let* f := wrap ("error creating file " +:+ target +:+ ": ")
                      (os.OpenFile target mode) in
          wrap ("error writing file " +:+ target +:+ ": ") (os.Copy f data derr)
        else ret tt in
      match entry w with
      | (Ok _, w') => untar rest dir w'
      | (Err e, w') => (Err e, w')
      end
  end.

Definition tarballFetcher (env : Env) (fetcher : Fetcher)
    (cacheDir directory : string) (params : gmap string string) : M unit :=
  let* _ := wrap ("error creating cache dir " +:+ cacheDir +:+ ": ")
              (os.MkdirAll cacheDir 493) in
  let* tempDir :=
    wrap ("error creating temporary directory "
          +:+ path.Join [cacheDir; directory] +:+ ": ")
      (os.MkdirTemp env cacheDir directory) in
  defer (os.RemoveAll tempDir)
    (let* tarballURL :=
       wrap "error expanding tarball fetch url template: "
         (lift (expandTemplate env (URL fetcher) params)) in
     let* _ := Stderr ("Downloading tarball from " +:+ tarballURL +:+ "..."
                       +:+ newline) in
     let* resp :=
       wrap ("error downloading tarball " +:+ tarballURL +:+ ": ")
         (http_GET env tarballURL) in
     let* uncompressed :=
       wrap "error creating gzip reader: "
         (lift (gzip_tar env (Body resp) (BodyErr resp))) in
     let* _ := untar uncompressed tempDir in
     let targetDir := path.Join [cacheDir; directory] in
     os.Rename tempDir targetDir).

End legacy.

(** ** A concrete environment

    One machine on which the launcher can be run: a cache directory, a few
    template files, a small web, a stand-in for the gzip and tar decoders
    (the first byte of the body selects the archive) and an [exec] that
    succeeds on files with an execute bit. *)
Module demo.

Definition fetch_url (u : string) : option Fetcher := Some {| URL := u |}.

Definition template_of (directory : string) (tarball binary : option Fetcher)
    : ExecTemplate :=
  {| Name := "grep-like";
     Directory := directory;
     Params := {[ "version" := "1.2.3" ]};
     Executables := {[ "foo" := "foo-v2" ]};
     TarballFetcher := tarball;
     BinaryFetcher := binary |}.

Definition binary_template : ExecTemplate :=
  template_of "v{{.version}}" None (fetch_url "https://example.test/grep-{{.version}}").

Definition files (name : string) : result ExecTemplate :=
  if decide (name = "binary.toml") then Ok binary_template
  else if decide (name = "tarball.toml") then
    Ok (template_of "v{{.version}}"
          (fetch_url "https://example.test/grep-{{.version}}.tar.gz") None)
  else if decide (name = "both.toml") then
    Ok (template_of "v{{.version}}"
          (fetch_url "https://example.test/grep-{{.version}}.tar.gz")
          (fetch_url "https://example.test/grep-{{.version}}"))
  else if decide (name = "neither.toml") then
    Ok (template_of "v{{.version}}" None None)
  else if decide (name = "nodirectory.toml") then
    Ok (template_of "" None None)
  else if decide (name = "missing.toml") then
    Ok (template_of "v{{.version}}" None
          (fetch_url "https://example.test/absent-{{.version}}"))
  else if decide (name = "escaping.toml") then
    Ok (template_of "v{{.version}}"
          (fetch_url "https://example.test/escaping.tar.gz") None)
  else Err (ErrPath "open" name (ErrSyscall ENOENT)).

Definition payload : list byte := [x7f; x45; x4c; x46].
Definition not_found : list byte := [x34; x30; x34].

Definition web (url : string) : result Response :=
  if decide (url = "https://example.test/grep-1.2.3") then
    Ok {| StatusCode := 200; Body := payload; BodyErr := None |}
  else if decide (url = "https://example.test/grep-1.2.3.tar.gz") then
    Ok {| StatusCode := 200; Body := [x1f; x8b; x01]; BodyErr := None |}
  else if decide (url = "https://example.test/escaping.tar.gz") then
    Ok {| StatusCode := 200; Body := [x1f; x8b; x02]; BodyErr := None |}
  else if decide (url = "https://example.test/absent-1.2.3") then
    Ok {| StatusCode := 404; Body := not_found; BodyErr := None |}
  else Err (ErrNew "dial tcp: connection refused").

Definition archive : tar.stream :=
  tar.Entry {| tar.Name := "bin/"; tar.Mode := 493; tar.Typeflag := tar.TypeDir |} [] None
    (tar.Entry {| tar.Name := "grep-like"; tar.Mode := 493; tar.Typeflag := tar.TypeReg |}
       payload None tar.EOF).

(** An archive whose first entry names the version directory from inside the
    temporary one, and whose stream then breaks. *)
Definition escaping_archive : tar.stream :=
  tar.Entry {| tar.Name := "../v1.2.3/"; tar.Mode := 493; tar.Typeflag := tar.TypeDir |} [] None
    (tar.Fail (ErrNew "unexpected EOF")).

Definition decoder (body : list byte) (berr : option error) : result tar.stream :=
  if decide (body = [x1f; x8b; x01]) then Ok archive
  else if decide (body = [x1f; x8b; x02]) then Ok escaping_archive
  else Err (ErrNew "gzip: invalid header").

(** A decoder that yields no escaping archive. *)
Definition safe_decoder (body : list byte) (berr : option error) : result tar.stream :=
  if decide (body = [x1f; x8b; x01]) then Ok archive
  else Err (ErrNew "gzip: invalid header").

Definition exec (f : FS) (argv0 : string) (argv : list string) : option Errno :=
  match os.lookup f (os.resolve argv0) with
  | None => Some ENOENT
  | Some (Dir _) => Some EACCES
  | Some (File perm _) => if Z.land perm 73 =? 0 then Some EACCES else None
  end.

Definition env : Env :=
  {| UserCacheDir := Ok "/home/u/.cache";
     readTemplateFile := files;
     http_Get := web;
     gzip_tar := decoder;
     text_template := fun _ _ => Err (ErrNew "template: unsupported action");
     random := fun n => (4242 + N.of_nat n)%N;
     syscall_Exec := exec |}.

Definition safe_env : Env :=
  {| UserCacheDir := UserCacheDir env;
     readTemplateFile := readTemplateFile env;
     http_Get := http_Get env;
     gzip_tar := safe_decoder;
     text_template := text_template env;
     random := random env;
     syscall_Exec := syscall_Exec env |}.


(** A machine with an empty cache. *)
Definition w0 : World := {| fs := fun _ => None; seed := 0; trace := [] |}.

(** A machine on which the version directory exists already and does not
    hold the executable. *)
Definition w_published : World :=
  {| fs := fun k =>
       if decide (k `prefix_of` ["home"; "u"; ".cache"; "polymorph"; "grep-like"; "v1.2.3"])
       then Some (Dir 493) else None;
     seed := 0; trace := [] |}.

(** A machine on which a longer file, not executable, is where a binary is
    to be downloaded. *)
Definition w_stale : World :=
  {| fs := fun k =>
       if decide (k = ["opt"; "tools"; "grep-like"])
       then Some (File 420 [x23; x21; x2f; x62; x69; x6e])
       else if decide (k `prefix_of` ["opt"; "tools"]) then Some (Dir 493)
       else None;
     seed := 0; trace := [] |}.

End demo.

(** * The vocabulary of the properties

    The predicates the statements below are written with, and the claims
    that fail, as they are stated. *)
Module vocab.
Import path os.

Fixpoint no_slash (s : string) : Prop :=
  match s with
  | EmptyString => True
  | String c s' => c <> slash /\ no_slash s'
  end.

(** A real element of a cleaned path. *)
Definition real (s : string) : Prop :=
  s <> "" /\ s <> "." /\ s <> ".." /\ no_slash s.

(** The stacks [Clean] builds (last element first): real elements on top of
    the [..] elements that lead a relative path. *)
Fixpoint canon (r : bool) (st : list string) : Prop :=
  match st with
  | [] => True
  | s :: st' =>
      (real s /\ canon r st') \/ (r = false /\ s = ".." /\ Forall (eq "..") st')
  end.

(** What [join_buf] appends to a buffer that is not empty. *)
Fixpoint tail_of (elem : list string) : string :=
  match elem with
  | [] => ""
  | e :: rest => String slash (e +:+ tail_of rest)
  end.

(** The name the request resolves to: the entry of [Executables] for the
    base name of the request, or the base name itself. *)
Definition resolved_name (t : ExecTemplate) (executableName : string) : string :=
  match Executables t !! Base executableName with
  | Some executable => executable
  | None => Base executableName
  end.


Fixpoint no_char (c0 : ascii) (s : string) : Prop :=
  match s with
  | EmptyString => True
  | String c s' => c <> c0 /\ no_char c0 s'
  end.

(** C3, as the claim states it: a pattern that references a key missing from
    the parameter map fails to expand. *)
Definition missing_key_claim : Prop :=
  forall (env : Env) (pattern : string) (params : gmap string string)
         (ns : list template.node) (k : string),
    template.Parse pattern = template.Tree ns ->
    In (template.FieldNode k) ns -> params !! k = None ->
    exists e, ExpandTemplate env pattern params = Err e.

(** Outside [P], the file system is as it was. *)
Definition fs_frame (P : list string -> Prop) (w w' : World) : Prop :=
  forall k, ~ P k -> fs w' k = fs w k.

(** [m] changes the file system at keys in [P] only. *)
Definition touches {A} (P : list string -> Prop) (m : M A) : Prop :=
  forall w r w', m w = (r, w') -> fs_frame P w w'.

(** [m] logs nothing. *)
Definition quiet {A} (m : M A) : Prop :=
  forall w r w', m w = (r, w') -> trace w' = trace w.

(** [m] may log, but never a call of the fetch function. *)
Definition no_fetch (evs : list event) : Prop := Forall (fun ev => ev <> EvFetch) evs.

Definition silent {A} (m : M A) : Prop :=
  forall w r w', m w = (r, w') ->
    exists evs, trace w' = trace w ++ evs /\ no_fetch evs.

Definition undot (st : list string) : list string :=
  filter (fun s => s <> "..") st.

(** A name that stays below the directory it is joined to: cleaned on its
    own, it has no [..] left. *)
Definition confined (name : string) : Prop :=
  Forall (fun s => s <> "..") (norm false (split name) []).

Definition is_digit (c : ascii) : bool :=
  ((48 <=? N_of_ascii c) && (N_of_ascii c <=? 57))%N.

Fixpoint all_digits (s : string) : Prop :=
  match s with
  | EmptyString => True
  | String c s' => is_digit c = true /\ all_digits s'
  end.

Fixpoint has_digit (s : string) : Prop :=
  match s with
  | EmptyString => False
  | String c s' => is_digit c = true \/ has_digit s'
  end.

Fixpoint entry_names (r : tar.stream) : list string :=
  match r with
  | tar.EOF | tar.Fail _ => []
  | tar.Entry header _ _ rest => tar.Name header :: entry_names rest
  end.

(** Every archive the decoders can yield keeps its entries below the
    directory it is extracted to. *)
Definition archives_confined (env : Env) : Prop :=
  forall body berr r,
    gzip_tar env body berr = Ok r -> Forall confined (entry_names r).


(** Every directory of [w] is a directory of [w']. *)
Definition dirs_kept (w w' : World) : Prop :=
  forall k perm, fs w k = Some (Dir perm) -> fs w' k = Some (Dir perm).

Definition keeps_dirs {A} (m : M A) : Prop :=
  forall w r w', m w = (r, w') -> dirs_kept w w'.

(** C7, as the claim states it, for the version directory: a fetch that fails
    leaves every path at or below the version directory as it was.  The
    claim is stated for the directories in [dir_ok] and the environments in
    [env_ok]; as written in the specification it is about all of them. *)
Definition untouched_claim (dir_ok : string -> Prop) (env_ok : Env -> Prop) : Prop :=
  forall (env : Env) (executableName templateFile execPath : string)
         (fetchFunc : M unit) (t : ExecTemplate) (directory cacheDir : string)
         (w w' : World) (e : error),
    readTemplateFile env templateFile = Ok t ->
    ExpandTemplate env (Directory t) (Params t) = Ok directory ->
    UserCacheDir env = Ok cacheDir ->
    getConfig env executableName templateFile = Ok (execPath, fetchFunc) ->
    dir_ok directory ->
    env_ok env ->
    fetchFunc w = (Err e, w') ->
    forall k,
      resolve (Join [Join [cacheDir; "polymorph"; Name t]; directory])
        `prefix_of` k ->
      fs w' k = fs w k.


(** C1, as the claim states it: a template with both fetch specs, or with
    neither, is rejected with an error and without network access. *)
Definition exclusivity_claim : Prop :=
  forall (env : Env) (templateFile executableName : string) (rest : list string)
         (t : ExecTemplate) (w : World),
    readTemplateFile env templateFile = Ok t ->
    (is_Some (TarballFetcher t) <-> is_Some (BinaryFetcher t)) ->
    (exists err, fst (runExec env templateFile executableName rest w) = Returned err)
    /\ http_calls (trace (snd (runExec env templateFile executableName rest w)))
       = http_calls (trace w).

(** C4, as the claim states it: when every response has a non-success
    status and a GET is made, the fetch fails. *)
Definition status_claim : Prop :=
  forall (env : Env) (t : ExecTemplate)
         (cacheDir execCacheDir directory versionedCacheDir executableBase : string)
         (w : World),
    (forall url resp, http_Get env url = Ok resp ->
                      ~ (200 <= StatusCode resp < 300)) ->
    http_calls (trace (snd (fetcher env t cacheDir execCacheDir directory
                              versionedCacheDir executableBase w))) <> [] ->
    exists e, fst (fetcher env t cacheDir execCacheDir directory
                     versionedCacheDir executableBase w) = Err e.

(** No action opens in [s]: it has no two opening braces in a row. *)
Fixpoint no_open (s : string) : Prop :=
  match s with
  | EmptyString => True
  | String c s' =>
      match s' with
      | String c' _ => ~ (c = "{"%char /\ c' = "{"%char) /\ no_open s'
      | EmptyString => True
      end
  end.

(** What a fetch logs: nothing, or the announcement of a download followed
    by the GET of the URL it announces. *)
Definition download_log (evs : list event) : Prop :=
  evs = []
  \/ exists kind url,
       (kind = "tarball" \/ kind = "binary")
       /\ evs = [EvStderr ("Downloading " +:+ kind +:+ " from " +:+ url +:+ "..."
                           +:+ newline);
                 EvHttpGet url].

(** What a run of the launcher logs once the executable is resolved. *)
Definition run_log (execPath : string) (argv : list string) (evs : list event) : Prop :=
  exists dl,
    download_log dl
    /\ (evs = [EvExec execPath argv]
        \/ evs = [EvExec execPath argv; EvFetch] ++ dl
        \/ evs = [EvExec execPath argv; EvFetch] ++ dl ++ [EvExec execPath argv]).

(** The texts that open the error messages of the launcher. *)
Definition stage_prefixes (templateFile executableName : string) : list string :=
  [ "error reading template " +:+ templateFile +:+ ": ";
    "error expanding directory template: ";
    "error getting user cache dir: ";
    "error executing " +:+ executableName +:+ ": ";
    "error fetching " +:+ executableName +:+ ": " ].

Definition is_dir (o : option node) : Prop := exists perm, o = Some (Dir perm).

Definition is_file (o : option node) : Prop :=
  exists perm content, o = Some (File perm content).

(** A well-formed file system: whatever exists is in a directory. *)
Definition wf (f : FS) : Prop :=
  forall k x, f (k ++ [x]) <> None -> is_dir (lookup f k).

(** The entries of an archive that [untar] extracts: directories and regular
    files. *)
Fixpoint extracted (r : tar.stream) : tar.stream :=
  match r with
  | tar.Entry header data derr rest =>
      if decide (tar.Typeflag header = tar.TypeDir
                 \/ tar.Typeflag header = tar.TypeReg)
      then tar.Entry header data derr (extracted rest)
      else extracted rest
  | _ => r
  end.

Fixpoint entry_headers (r : tar.stream) : list tar.Header :=
  match r with
  | tar.EOF | tar.Fail _ => []
  | tar.Entry header _ _ rest => header :: entry_headers rest
  end.

(** What an entry of an archive has become under [dir]: a directory entry a
    directory, a regular file entry a file. *)
Definition materialised (dir : string) (f : FS) (h : tar.Header) : Prop :=
  (tar.Typeflag h = tar.TypeDir ->
   is_dir (os.lookup f (os.resolve (path.Join [dir; tar.Name h]))))
  /\ (tar.Typeflag h = tar.TypeReg ->
      is_file (os.lookup f (os.resolve (path.Join [dir; tar.Name h])))).

(** Every file of [w] is a file of [w'], with the same mode. *)
Definition files_kept (w w' : World) : Prop :=
  forall k perm content,
    fs w k = Some (File perm content) ->
    exists content', fs w' k = Some (File perm content').

Definition keeps_files {A} (m : M A) : Prop :=
  forall w r w', m w = (r, w') -> files_kept w w'.

End vocab.

(** * The model on concrete inputs *)

Example Clean_ex1 : path.Clean "/a//b/./c/../d/" = "/a/b/d".
Proof. vm_compute. reflexivity. Qed.
Example Clean_ex2 : path.Clean "a/../../b" = "../b".
Proof. vm_compute. reflexivity. Qed.
Example Clean_ex3 : path.Clean "/../a/.." = "/".
Proof. vm_compute. reflexivity. Qed.
Example Join_ex1 : path.Join [""; "a"; ""; "b/"] = "a/b".
Proof. vm_compute. reflexivity. Qed.
Example Join_ex2 : path.Join [""; ""] = "".
Proof. vm_compute. reflexivity. Qed.
Example Base_ex1 : path.Base "/usr/bin/foo//" = "foo".
Proof. vm_compute. reflexivity. Qed.
Example Base_ex2 : path.Base "///" = "/".
Proof. vm_compute. reflexivity. Qed.
Example Base_ex3 : path.Base "foo" = "foo".
Proof. vm_compute. reflexivity. Qed.
Example Expand_ex1 env :
  ExpandTemplate env "v{{.version}}-{{ .os }}" {[ "version" := "1.2.3"; "os" := "linux" ]}
  = Ok "v1.2.3-linux".
Proof. vm_compute. reflexivity. Qed.
Example Expand_ex2 env :
  ExpandTemplate env "v{{.version" ∅ = Err (ErrNew "template: :1: unclosed action").
Proof. vm_compute. reflexivity. Qed.
Example Expand_ex3 env :
  ExpandTemplate env "v{{if .x}}a{{end}}" ∅ = text_template env "v{{if .x}}a{{end}}" ∅.
Proof. vm_compute. reflexivity. Qed.
Example Expand_ex4 env : ExpandTemplate env "v{{.version}}" ∅ = Ok "v<no value>".
Proof. vm_compute. reflexivity. Qed.

(** The first run on an empty cache downloads, installs and executes. *)
Example first_run :
  let r := runExec demo.env "binary.toml" "grep-like" ["-r"; "x"] demo.w0 in
  fst r = Replaced
  /\ http_calls (trace (snd r)) = ["https://example.test/grep-1.2.3"]
  /\ fs (snd r) ["home"; "u"; ".cache"; "polymorph"; "grep-like"; "v1.2.3"; "grep-like"]
     = Some (File 493 demo.payload)
  /\ fs (snd r) ["home"; "u"; ".cache"; "polymorph"; "grep-like"; "v1.2.34242"]
     = None.
Proof. vm_compute. done. Qed.

(** The second run executes the cached copy without any network call. *)
Example second_run :
  let w1 := snd (runExec demo.env "binary.toml" "grep-like" [] demo.w0) in
  let r := runExec demo.env "binary.toml" "grep-like" [] w1 in
  fst r = Replaced /\ http_calls (trace (snd r)) = http_calls (trace w1)
  /\ fetch_calls (trace (snd r)) = fetch_calls (trace w1).
Proof. vm_compute. done. Qed.

(** A tarball is unpacked below the version directory. *)
Example tarball_run :
  let r := runExec demo.env "tarball.toml" "grep-like" [] demo.w0 in
  fst r = Replaced
  /\ fs (snd r) ["home"; "u"; ".cache"; "polymorph"; "grep-like"; "v1.2.3"; "bin"]
     = Some (Dir 493).
Proof. vm_compute. done. Qed.

(** * Properties *)

(** ** Strings *)
Section strings.

Lemma append_nil_l (s : string) : "" +:+ s = s.
Proof. reflexivity. Qed.

Lemma append_cons (c : ascii) (s t : string) :
  String c s +:+ t = String c (s +:+ t).
Proof. reflexivity. Qed.

Lemma append_nil_r (s : string) : s +:+ "" = s.
Proof. induction s as [|c s IH]; [reflexivity|]. by rewrite append_cons, IH. Qed.

Lemma append_assoc (s t u : string) : (s +:+ t) +:+ u = s +:+ t +:+ u.
Proof.
  induction s as [|c s IH]; [reflexivity|]. by rewrite !append_cons, IH.
Qed.

Lemma append_eq_nil (s t : string) : s +:+ t = "" -> s = "" /\ t = "".
Proof. destruct s; [done|]. rewrite append_cons. discriminate. Qed.

End strings.

(** ** Lexical paths *)
Module path_facts.
Import path vocab.

Lemma split_nonempty (s : string) : split s <> [].
Proof.
  induction s as [|c s IH]; simpl; [done|].
  case_decide; [done|]. by destruct (split s).
Qed.

Lemma split_app_slash (a b : string) :
  split (a +:+ String slash b) = split a ++ split b.
Proof.
  induction a as [|c a IH].
  - rewrite append_nil_l. done.
  - rewrite append_cons. simpl. rewrite IH. case_decide; [done|].
    pose proof (split_nonempty a). by destruct (split a).
Qed.

Lemma split_no_slash (s : string) : no_slash s -> split s = [s].
Proof.
  induction s as [|c s IH]; [done|]. intros [Hc Hs]. simpl.
  rewrite decide_False by done. by rewrite IH.
Qed.

Lemma split_Forall_no_slash (s : string) : Forall no_slash (split s).
Proof.
  induction s as [|c s IH]; simpl.
  - by repeat constructor.
  - case_decide.
    + by constructor.
    + pose proof (split_nonempty s). destruct (split s) as [|seg rest]; [done|].
      inversion IH; subst. constructor; [by split|done].
Qed.

Lemma no_slash_app (s t : string) : no_slash s -> no_slash t -> no_slash (s +:+ t).
Proof.
  induction s as [|c s IH]; [done|]. intros [? ?] ?. rewrite append_cons.
  split; auto.
Qed.

Lemma split_unsplit (segs : list string) :
  segs <> [] -> Forall no_slash segs -> split (unsplit segs) = segs.
Proof.
  induction segs as [|seg rest IH]; [done|]. intros _ Hall.
  inversion Hall as [|? ? Hseg Hrest]; subst.
  destruct rest as [|seg' rest].
  - simpl. by apply split_no_slash.
  - change (unsplit (seg :: seg' :: rest))
      with (seg +:+ String slash (unsplit (seg' :: rest))).
    rewrite split_app_slash, IH by done. by rewrite split_no_slash.
Qed.

Lemma norm_app (r : bool) (a b st : list string) :
  norm r (a ++ b) st = norm r b (norm r a st).
Proof. apply fold_left_app. Qed.

Lemma real_dotdot : ~ real "..".
Proof. intros (_ & _ & H & _). done. Qed.

Lemma step_real (r : bool) (st : list string) (s : string) :
  real s -> step r st s = s :: st.
Proof.
  intros (H1 & H2 & H3 & _). unfold step.
  by rewrite !decide_False by done.
Qed.

Lemma canon_dots (st : list string) :
  Forall (eq "..") st -> canon false st.
Proof.
  induction 1 as [|s st <- Hst IH]; simpl; [done|]. right. done.
Qed.

Lemma canon_tail (r : bool) (s : string) (st : list string) :
  canon r (s :: st) -> canon r st.
Proof.
  simpl. intros [[_ ?]|(-> & _ & ?)]; [done|]. by apply canon_dots.
Qed.

Lemma step_canon (r : bool) (st : list string) (seg : string) :
  no_slash seg -> canon r st -> canon r (step r st seg).
Proof.
  intros Hseg Hst. unfold step.
  repeat case_decide; try done.
  - destruct st as [|top below].
    + destruct r; simpl; [done|]. right. done.
    + case_decide; subst.
      * destruct r; [done|]. simpl. right. repeat split; [].
        simpl in Hst. destruct Hst as [[Hr _]|(_ & _ & ?)].
        -- by destruct (real_dotdot Hr).
        -- by constructor.
      * by eapply canon_tail.
  - simpl. left. done.
Qed.

Lemma norm_canon (r : bool) (segs st : list string) :
  Forall no_slash segs -> canon r st -> canon r (norm r segs st).
Proof.
  intros Hsegs. revert st. induction Hsegs as [|seg segs Hseg _ IH]; intros st Hst.
  - done.
  - simpl. apply IH. by apply step_canon.
Qed.

(** Replaying a canonical stack from its bottom rebuilds it. *)
Lemma norm_rev_canon (r : bool) (st : list string) :
  canon r st -> norm r (rev st) [] = st.
Proof.
  induction st as [|s st IH]; [done|]. intros Hst.
  simpl rev. rewrite norm_app, IH by (by eapply canon_tail). simpl.
  destruct Hst as [[Hs _]|(-> & -> & Hdots)].
  - by apply step_real.
  - unfold step. simpl. destruct Hdots as [|? ? <- _]; [done|].
    by rewrite decide_True.
Qed.

Lemma canon_Forall_no_slash (r : bool) (st : list string) :
  canon r st -> Forall no_slash st.
Proof.
  induction st as [|s st IH]; [done|]. intros Hst. constructor.
  - destruct Hst as [[(_ & _ & _ & ?) _]|(_ & -> & _)]; [done|]. by repeat split.
  - apply IH. by eapply canon_tail.
Qed.

Lemma canon_Forall_nonempty (r : bool) (st : list string) :
  canon r st -> Forall (fun s => s <> "") st.
Proof.
  induction st as [|s st IH]; [done|]. intros Hst. constructor.
  - by destruct Hst as [[(? & _) _]|(_ & -> & _)].
  - apply IH. by eapply canon_tail.
Qed.

Lemma rooted_app (s t : string) : s <> "" -> rooted (s +:+ t) = rooted s.
Proof. by destruct s. Qed.

Lemma rooted_unsplit (segs : list string) :
  segs <> [] -> Forall no_slash segs -> Forall (fun s => s <> "") segs ->
  rooted (unsplit segs) = false.
Proof.
  destruct segs as [|seg rest]; [done|]. intros _ Hns Hne.
  inversion Hns; inversion Hne; subst.
  assert (rooted seg = false) as Hseg.
  { destruct seg as [|c seg]; [done|]. simpl in *. by apply bool_decide_eq_false; tauto. }
  destruct rest; [done|].
  change (rooted (seg +:+ "/" +:+ unsplit (s :: rest)) = false).
  by rewrite rooted_app.
Qed.

Lemma unsplit_nonempty (segs : list string) :
  segs <> [] -> Forall (fun s => s <> "") segs -> unsplit segs <> "".
Proof.
  destruct segs as [|seg rest]; [done|]. intros _ Hne. inversion Hne; subst.
  destruct rest; [done|].
  change (seg +:+ "/" +:+ unsplit (s :: rest) <> ""). by destruct seg.
Qed.

Section render.
Context (r : bool) (st : list string) (Hst : canon r st).

Lemma render_nonempty : render r (rev st) <> "".
Proof using Hst.
  unfold render. destruct r; [done|].
  destruct (rev st) eqn:E; [done|]. rewrite <- E.
  apply unsplit_nonempty; [by rewrite E|].
  apply Forall_rev. by eapply canon_Forall_nonempty.
Qed.

Lemma rooted_render : rooted (render r (rev st)) = r.
Proof using Hst.
  unfold render. destruct r; [done|].
  destruct (rev st) eqn:E; [done|]. rewrite <- E.
  apply rooted_unsplit; [by rewrite E| |]; apply Forall_rev.
  - by eapply canon_Forall_no_slash.
  - by eapply canon_Forall_nonempty.
Qed.

(** The elements of a rendered stack, replayed, give the stack again. *)
Lemma norm_split_render : norm r (split (render r (rev st))) [] = st.
Proof using Hst.
  pose proof (canon_Forall_no_slash _ _ Hst) as Hns.
  unfold render. destruct r.
  - change ("/" +:+ unsplit (rev st)) with ("" +:+ String slash (unsplit (rev st))).
    rewrite split_app_slash. destruct st as [|s st'] eqn:E; [done|]. rewrite <- E in *.
    rewrite split_unsplit.
    + change (norm true (rev st) (step true [] "") = st).
      by apply norm_rev_canon.
    + intros Hrev. apply (f_equal (@length string)) in Hrev.
      rewrite length_rev, E in Hrev. done.
    + by apply Forall_rev.
  - destruct (rev st) eqn:E.
    + apply (f_equal (@rev string)) in E. rewrite rev_involutive in E. by subst.
    + rewrite <- E. rewrite split_unsplit.
      * by apply norm_rev_canon.
      * by rewrite E.
      * by apply Forall_rev.
Qed.

End render.

Lemma Clean_canon (p : string) :
  canon (rooted p) (norm (rooted p) (split p) []).
Proof. apply norm_canon; [apply split_Forall_no_slash|done]. Qed.

Lemma Clean_nonempty (p : string) : Clean p <> "".
Proof.
  unfold Clean. case_decide; [done|]. apply render_nonempty, Clean_canon.
Qed.

Lemma rooted_Clean (p : string) : p <> "" -> rooted (Clean p) = rooted p.
Proof.
  intros Hp. unfold Clean. rewrite decide_False by done.
  apply rooted_render, Clean_canon.
Qed.

Lemma norm_split_Clean (p : string) :
  p <> "" ->
  norm (rooted p) (split (Clean p)) [] = norm (rooted p) (split p) [].
Proof.
  intros Hp. unfold Clean. rewrite decide_False by done.
  apply norm_split_render, Clean_canon.
Qed.

Lemma Clean_idemp (p : string) : Clean (Clean p) = Clean p.
Proof.
  destruct (decide (p = "")) as [->|Hp]; [done|].
  unfold Clean at 1. rewrite decide_False by apply Clean_nonempty.
  rewrite rooted_Clean, norm_split_Clean by done.
  unfold Clean. by rewrite decide_False.
Qed.

(** Cleaning a prefix first does not change the cleaned path. *)
Lemma Clean_app_slash (p q : string) :
  p <> "" -> Clean (Clean p +:+ String slash q) = Clean (p +:+ String slash q).
Proof.
  intros Hp. pose proof (Clean_nonempty p) as HX.
  unfold Clean at 1 3.
  rewrite !decide_False by (by intros [? _]%append_eq_nil).
  rewrite !rooted_app, rooted_Clean by done.
  rewrite !split_app_slash, !norm_app.
  by rewrite norm_split_Clean.
Qed.

Lemma join_buf_nonempty (buf : string) (elem : list string) :
  buf <> "" -> join_buf buf elem = buf +:+ tail_of elem.
Proof.
  revert buf. induction elem as [|e rest IH]; intros buf Hbuf; simpl.
  - by rewrite append_nil_r.
  - rewrite decide_False by done. rewrite IH.
    + rewrite !append_assoc. done.
    + by intros [? _]%append_eq_nil.
Qed.

Lemma join_buf_app (buf : string) (xs ys : list string) :
  join_buf buf (xs ++ ys) = join_buf (join_buf buf xs) ys.
Proof.
  revert buf. induction xs as [|x xs IH]; intros buf; simpl; [done|].
  by repeat case_decide.
Qed.

Lemma Clean_tail_of (p : string) (elem : list string) :
  p <> "" -> Clean (Clean p +:+ tail_of elem) = Clean (p +:+ tail_of elem).
Proof.
  intros Hp. destruct elem as [|e rest]; simpl.
  - rewrite !append_nil_r. apply Clean_idemp.
  - by apply Clean_app_slash.
Qed.

(** Joining in two steps is joining at once. *)
Lemma Join_nested (xs ys : list string) :
  Join (Join xs :: ys) = Join (xs ++ ys).
Proof.
  unfold Join at 2 3. rewrite join_buf_app.
  destruct (decide (join_buf "" xs = "")) as [E|E].
  - rewrite E. unfold Join. simpl. done.
  - pose proof (Clean_nonempty (join_buf "" xs)) as HX.
    unfold Join. simpl. rewrite (decide_False (P := Clean _ = "")) by done.
    rewrite (join_buf_nonempty _ ys HX), (join_buf_nonempty _ ys E).
    rewrite !decide_False by (by intros [? _]%append_eq_nil).
    by apply Clean_tail_of.
Qed.










End path_facts.

(** ** The resolved executable path *)
Section resolver.
Import path vocab path_facts.

Lemma getConfig_Ok (env : Env) (executableName templateFile : string)
    (t : ExecTemplate) (directory cacheDir : string) :
  readTemplateFile env templateFile = Ok t ->
  ExpandTemplate env (Directory t) (Params t) = Ok directory ->
  UserCacheDir env = Ok cacheDir ->
  getConfig env executableName templateFile =
    Ok (Join [Join [Join [cacheDir; "polymorph"; Name t]; directory];
              resolved_name t executableName],
        fetcher env t cacheDir (Join [cacheDir; "polymorph"; Name t]) directory
          (Join [Join [cacheDir; "polymorph"; Name t]; directory])
          (Base executableName)).
Proof. intros Ht Hd Hc. unfold getConfig. by rewrite Ht, Hd, Hc. Qed.

Lemma getConfig_inv (env : Env) (executableName templateFile execPath : string)
    (fetchFunc : M unit) :
  getConfig env executableName templateFile = Ok (execPath, fetchFunc) ->
  exists t directory cacheDir,
    readTemplateFile env templateFile = Ok t
    /\ ExpandTemplate env (Directory t) (Params t) = Ok directory
    /\ UserCacheDir env = Ok cacheDir.
Proof.
  unfold getConfig.
  destruct (readTemplateFile env templateFile) as [t|]; [|done].
  destruct (ExpandTemplate env (Directory t) (Params t)) as [d|] eqn:Hd; [|done].
  destruct (UserCacheDir env) as [c|]; [|done]. intros _. by exists t, d, c.
Qed.

(** C8. For every template record and requested executable name, the resolved
    executable path is the user cache directory joined with ["polymorph"],
    the template's name, the expanded directory pattern and the
    alias-resolved executable name. *)
Theorem getConfig_execPath (env : Env) (executableName templateFile : string)
    (t : ExecTemplate) (directory cacheDir : string) :
  readTemplateFile env templateFile = Ok t ->
  ExpandTemplate env (Directory t) (Params t) = Ok directory ->
  UserCacheDir env = Ok cacheDir ->
  exists fetchFunc,
    getConfig env executableName templateFile =
      Ok (Join [cacheDir; "polymorph"; Name t; directory;
                resolved_name t executableName], fetchFunc).
Proof.
  intros Ht Hd Hc. eexists.
  rewrite (getConfig_Ok _ _ _ _ _ _ Ht Hd Hc). do 2 f_equal.
  rewrite (Join_nested [Join [cacheDir; "polymorph"; Name t]; directory]
             [resolved_name t executableName]).
  exact (Join_nested [cacheDir; "polymorph"; Name t]
           [directory; resolved_name t executableName]).
Qed.




Lemma getConfig_execPath_witness :
  exists fetchFunc,
    getConfig demo.env "/usr/bin/foo" "binary.toml" =
      Ok ("/home/u/.cache/polymorph/grep-like/v1.2.3/foo-v2", fetchFunc).
Proof.
  exact (getConfig_execPath demo.env "/usr/bin/foo" "binary.toml" _ "v1.2.3"
           "/home/u/.cache" eq_refl eq_refl eq_refl).
Defined.

End resolver.


(** ** Template expansion *)
Section expansion.
Import template vocab.

Lemma lex_text (pre rest : string) :
  no_char "{" pre ->
  lex false (pre +:+ "{{" +:+ rest) = (fun ps => PText pre :: ps) <$> lex true rest.
Proof.
  induction pre as [|c pre IH]; intros Hpre.
  - done.
  - destruct Hpre as [Hc Hpre]. rewrite append_cons.
    assert (lex false (String c (pre +:+ "{{" +:+ rest))
            = push c <$> lex false (pre +:+ "{{" +:+ rest)) as ->.
    { simpl. destruct (pre +:+ "{{" +:+ rest); [done|].
      by rewrite (bool_decide_eq_false_2 (c = "{"%char)). }
    rewrite IH by done. by destruct (lex true rest).
Qed.

Lemma lex_action (body rest : string) :
  no_char "}" body ->
  lex true (body +:+ "}}" +:+ rest) = (fun ps => PAction body :: ps) <$> lex false rest.
Proof.
  induction body as [|c body IH]; intros Hbody.
  - done.
  - destruct Hbody as [Hc Hbody]. rewrite append_cons.
    assert (lex true (String c (body +:+ "}}" +:+ rest))
            = push c <$> lex true (body +:+ "}}" +:+ rest)) as ->.
    { simpl. destruct (body +:+ "}}" +:+ rest); [done|].
      by rewrite (bool_decide_eq_false_2 (c = "}"%char)). }
    rewrite IH by done. by destruct (lex false rest).
Qed.

Lemma is_alnum_plain (c : ascii) :
  is_alnum c = true -> c <> "}"%char /\ is_space c = false.
Proof. destruct c as [[] [] [] [] [] [] [] []]; vm_compute; intros; done. Qed.

Lemma is_letter_alnum (c : ascii) : is_letter c = true -> is_alnum c = true.
Proof. unfold is_alnum. by intros ->. Qed.

Lemma alnum_no_brace (s : string) :
  forallb_string is_alnum s = true -> no_char "}" s.
Proof.
  induction s as [|c s IH]; [done|]. simpl. intros [Hc Hs]%andb_true_iff.
  split; [by apply is_alnum_plain|auto].
Qed.

Lemma alnum_trim_right (s : string) :
  forallb_string is_alnum s = true -> trim_right s = s.
Proof.
  induction s as [|c s IH]; [done|]. simpl. intros [Hc Hs]%andb_true_iff.
  rewrite IH by done. by destruct (is_alnum_plain c Hc) as [_ ->].
Qed.

Lemma is_ident_alnum (k : string) :
  is_ident k = true -> forallb_string is_alnum k = true.
Proof.
  destruct k as [|c k]; [done|]. simpl. intros [Hc Hk]%andb_true_iff.
  by rewrite (is_letter_alnum c Hc).
Qed.

Lemma parse_action_field (k : string) :
  is_ident k = true -> parse_action ("." +:+ k) = Some (FieldNode k).
Proof.
  intros Hk. unfold parse_action.
  change (trim_left ("." +:+ k)) with (String "."%char k).
  change (trim_right (String "."%char k)) with (String "."%char (trim_right k)).
  rewrite alnum_trim_right by (by apply is_ident_alnum).
  by rewrite Hk.
Qed.

(** Executing a parsed pattern with the default option never fails. *)
Lemma exec_nodes_default (params : gmap string string) (ns : list node) :
  exists out, exec_nodes mapInvalid params ns = Ok out.
Proof.
  induction ns as [|n ns [out IH]]; [by eexists|].
  destruct n as [s|k]; simpl; rewrite IH.
  - by eexists.
  - unfold eval_field. destruct (params !! k); by eexists.
Qed.

(** C3, where it fails: [v{{.version}}] over an empty parameter map expands,
    without an error, to [v<no value>]. *)
Lemma missing_key_claim_fails : ~ missing_key_claim.
Proof.
  intros H.
  destruct (H demo.env "v{{.version}}" ∅ [TextNode "v"; FieldNode "version"; TextNode ""]
              "version" eq_refl) as [e He].
  - simpl. tauto.
  - done.
  - vm_compute in He. discriminate.
Qed.

(** C3, amended. A reference to a key that is not in the parameter map does
    not make the expansion fail: the template is executed with the default
    [missingkey] option, and the reference is rendered as [<no value>],
    between the text before it and the expansion of what follows. *)
Theorem ExpandTemplate_missing_key (env : Env) (pre k post : string)
    (params : gmap string string) (ns : list node) :
  no_char "{" pre ->
  is_ident k = true ->
  params !! k = None ->
  Parse post = Tree ns ->
  exists out,
    ExpandTemplate env post params = Ok out
    /\ ExpandTemplate env (pre +:+ "{{." +:+ k +:+ "}}" +:+ post) params
       = Ok (pre +:+ "<no value>" +:+ out).
Proof.
  intros Hpre Hk Hmiss Hpost.
  destruct (exec_nodes_default params ns) as [out Hout].
  exists out. unfold ExpandTemplate, Execute. rewrite Hpost. simpl.
  split; [done|].
  unfold Parse in *.
  change (pre +:+ "{{." +:+ k +:+ "}}" +:+ post)
    with (pre +:+ "{{" +:+ ("." +:+ k) +:+ "}}" +:+ post).
  rewrite lex_text by done.
  rewrite (lex_action ("." +:+ k)).
  2:{ split; [done|]. by apply alnum_no_brace, is_ident_alnum. }
  destruct (lex false post) as [ps|]; [|done]. simpl.
  rewrite parse_action_field by done.
  destruct (parse_pieces ps) as [ns'|]; [|done]. simpl.
  injection Hpost as ->. simpl.
  unfold eval_field. rewrite Hmiss, Hout. done.
Qed.

Lemma ExpandTemplate_missing_key_witness :
  exists out,
    ExpandTemplate demo.env "" ∅ = Ok out
    /\ ExpandTemplate demo.env ("v" +:+ "{{." +:+ "version" +:+ "}}" +:+ "") ∅
       = Ok ("v" +:+ "<no value>" +:+ out).
Proof.
  apply (ExpandTemplate_missing_key demo.env "v" "version" "" ∅ [TextNode ""]).
  - simpl. split; [discriminate|exact I].
  - reflexivity.
  - reflexivity.
  - reflexivity.
Defined.

End expansion.

(** ** What a call changes in the world *)
Section effects.
Import vocab.

Lemma bind_inv {A B} (m : M A) (k : A -> M B) w r w' :
  bind m k w = (r, w') ->
  (exists a w1, m w = (Ok a, w1) /\ k a w1 = (r, w'))
  \/ (exists e, m w = (Err e, w') /\ r = Err e).
Proof.
  unfold bind. destruct (m w) as [[a|e] w1]; intros H.
  - left. eauto.
  - right. injection H as <- <-. eauto.
Qed.

Lemma wrap_inv {A} (prefix : string) (m : M A) w r w' :
  wrap prefix m w = (r, w') ->
  (exists a, m w = (Ok a, w') /\ r = Ok a)
  \/ (exists e, m w = (Err e, w') /\ r = Err (ErrWrap prefix e)).
Proof.
  unfold wrap. destruct (m w) as [[a|e] w1]; intros H; injection H as <- <-; eauto.
Qed.

Lemma fs_frame_refl P w : fs_frame P w w.
Proof. by intros k _. Qed.

Lemma fs_frame_trans P w1 w2 w3 :
  fs_frame P w1 w2 -> fs_frame P w2 w3 -> fs_frame P w1 w3.
Proof. intros H1 H2 k Hk. by rewrite H2, H1. Qed.

Lemma touches_mono {A} (P Q : list string -> Prop) (m : M A) :
  (forall k, P k -> Q k) -> touches P m -> touches Q m.
Proof. intros HPQ Hm w r w' E k Hk. apply (Hm w r w' E). auto. Qed.


Lemma touches_wrap {A} P prefix (m : M A) : touches P m -> touches P (wrap prefix m).
Proof. intros Hm w r w' [(a & E & _)|(e & E & _)]%wrap_inv; by eapply Hm. Qed.



Lemma quiet_bind {A B} (m : M A) (k : A -> M B) :
  quiet m -> (forall a, quiet (k a)) -> quiet (bind m k).
Proof.
  intros Hm Hk w r w' [(a & w1 & E1 & E2)|(e & E1 & _)]%bind_inv.
  - rewrite (Hk _ _ _ _ E2). by eapply Hm.
  - by eapply Hm.
Qed.

Lemma quiet_wrap {A} prefix (m : M A) : quiet m -> quiet (wrap prefix m).
Proof. intros Hm w r w' [(a & E & _)|(e & E & _)]%wrap_inv; by eapply Hm. Qed.

Lemma quiet_silent {A} (m : M A) : quiet m -> silent m.
Proof.
  intros Hm w r w' E. exists []. rewrite app_nil_r. split; [by eapply Hm|constructor].
Qed.

Lemma silent_bind {A B} (m : M A) (k : A -> M B) :
  silent m -> (forall a, silent (k a)) -> silent (bind m k).
Proof.
  intros Hm Hk w r w' [(a & w1 & E1 & E2)|(e & E1 & _)]%bind_inv.
  - destruct (Hm _ _ _ E1) as (evs1 & T1 & H1).
    destruct (Hk _ _ _ _ E2) as (evs2 & T2 & H2).
    exists (evs1 ++ evs2). rewrite T2, T1, app_assoc.
    split; [done|by apply Forall_app].
  - by eapply Hm.
Qed.

Lemma silent_wrap {A} prefix (m : M A) : silent m -> silent (wrap prefix m).
Proof. intros Hm w r w' [(a & E & _)|(e & E & _)]%wrap_inv; by eapply Hm. Qed.

End effects.

(** ** Package [os]: what each call touches *)
Module os_facts.
Import os vocab.

Lemma insert_other (k k' : list string) (n : node) (f : FS) :
  k' <> k -> insert k n f k' = f k'.
Proof. intros H. unfold insert. by rewrite decide_False. Qed.

Lemma Mkdir_spec (name : string) (perm : Z) (w : World) :
  (exists e, Mkdir name perm w = (Err (ErrPath "mkdir" name (ErrSyscall e)), w))
  \/ Mkdir name perm w
     = (Ok tt, set_fs (insert (resolve name) (Dir perm) (fs w)) w).
Proof.
  unfold Mkdir, PathError, fail.
  destruct (lookup (fs w) (resolve name)); [by left; eexists|].
  destruct (lookup (fs w) (removelast (resolve name))) as [[]|];
    [by right|by left; eexists..].
Qed.

Lemma mkdir_all_frame (todo done : list string) (perm : Z) (f f' : FS) e :
  mkdir_all done todo perm f = (e, f') ->
  forall k, ~ k `prefix_of` (done ++ todo) -> f' k = f k.
Proof.
  revert done f. induction todo as [|seg rest IH]; intros done f E k Hk; simpl in E.
  - by injection E as _ <-.
  - assert (done ++ seg :: rest = (done ++ [seg]) ++ rest) as Happ
      by (by rewrite <- app_assoc).
    rewrite Happ in Hk.
    destruct (lookup f (done ++ [seg])) as [[]|].
    + by eapply IH.
    + by injection E as _ <-.
    + rewrite (IH _ _ E k Hk). apply insert_other. intros ->.
      apply Hk. by apply prefix_app_r.
Qed.

Lemma MkdirAll_touches (name : string) (perm : Z) :
  touches (fun k => k `prefix_of` resolve name) (MkdirAll name perm).
Proof.
  intros w r w' E k Hk. unfold MkdirAll, PathError, fail in E.
  case_decide; [by injection E as _ <-|].
  destruct (mkdir_all [] (resolve name) perm (fs w)) as [[e|] f] eqn:Em;
    injection E as _ <-; simpl; by eapply (mkdir_all_frame _ [] _ _ _ _ Em).
Qed.

Lemma MkdirAll_quiet (name : string) (perm : Z) : quiet (MkdirAll name perm).
Proof.
  intros w r w' E. unfold MkdirAll, PathError, fail in E.
  case_decide; [by injection E as _ <-|].
  destruct (mkdir_all [] (resolve name) perm (fs w)) as [[e|] f];
    by injection E as _ <-.
Qed.

(** A successful [MkdirTemp] creates one directory, named by the prefix, a
    decimal number and the suffix. *)
Lemma mkdir_temp_loop_spec (env : Env) (tries : nat) (dir prefix suffix : string)
    (w : World) r w' :
  mkdir_temp_loop env tries dir prefix suffix w = (r, w') ->
  trace w' = trace w
  /\ match r with
     | Ok name =>
         exists n, name = prefix +:+ uitoa n +:+ suffix
                   /\ fs w' = insert (resolve name) (Dir 448) (fs w)
     | Err _ => fs w' = fs w
     end.
Proof.
  revert w. induction tries as [|tries IH]; intros w; simpl;
    unfold nextRandom;
    set (w1 := {| fs := fs w; seed := S (seed w); trace := trace w |});
    set (name := prefix +:+ uitoa (random env (seed w)) +:+ suffix);
    (destruct (Mkdir_spec name 448 w1) as [[e ->]| ->];
     [|intros E; injection E as <- <-; split; [done|by eexists]]).
  - simpl errors_Is. unfold PathError, fail.
    repeat case_bool_decide; try destruct (lookup (fs w1) (resolve dir));
      intros E; by injection E as <- <-.
  - simpl errors_Is. unfold PathError, fail.
    case_bool_decide.
    + intros E. by destruct (IH _ E) as [-> ?].
    + case_bool_decide; try destruct (lookup (fs w1) (resolve dir));
        intros E; by injection E as <- <-.
Qed.

Lemma MkdirTemp_spec (env : Env) (dir pattern : string) (w : World) r w' :
  MkdirTemp env dir pattern w = (r, w') ->
  trace w' = trace w
  /\ match r with
     | Ok name =>
         exists prefix suffix n,
           prefixAndSuffix pattern = Ok (prefix, suffix)
           /\ name = joinPath dir prefix +:+ uitoa n +:+ suffix
           /\ fs w' = insert (resolve name) (Dir 448) (fs w)
     | Err _ => fs w' = fs w
     end.
Proof.
  unfold MkdirTemp. destruct (prefixAndSuffix pattern) as [[prefix suffix]|e].
  - intros E. destruct (mkdir_temp_loop_spec _ _ _ _ _ _ _ _ E) as [Ht Hr].
    split; [done|]. destruct r; [|done].
    destruct Hr as (n & -> & Hfs). by exists prefix, suffix, n.
  - intros E. by injection E as <- <-.
Qed.

Lemma OpenFile_spec (name : string) (perm : Z) (w : World) r w' :
  OpenFile name perm w = (r, w') ->
  trace w' = trace w
  /\ (forall k, r = Ok k -> k = resolve name)
  /\ fs_frame (eq (resolve name)) w w'.
Proof.
  unfold OpenFile, PathError, fail.
  destruct (lookup (fs w) (resolve name)) as [[]|];
    [| |destruct (lookup (fs w) (removelast (resolve name))) as [[]|]];
    intros E; injection E as <- <-;
    (split; [done|]; split; [intros ? ?; congruence|]);
    try apply fs_frame_refl.
  intros k Hk. simpl. apply insert_other. congruence.
Qed.

Lemma Copy_spec (k : list string) data derr (w : World) r w' :
  Copy k data derr w = (r, w') ->
  trace w' = trace w /\ fs_frame (eq k) w w'.
Proof.
  unfold Copy. intros E.
  assert (w' = set_fs (write k data (fs w)) w) as ->
    by (destruct derr; by injection E as _ <-).
  split; [done|]. intros k' Hk'. simpl. unfold write.
  destruct (fs w k) as [[]|]; try done. apply insert_other. congruence.
Qed.


Lemma Rename_quiet (old new : string) : quiet (Rename old new).
Proof.
  intros w r w'. unfold Rename, LinkError, fail.
  repeat (case_match || case_decide); intros E; by simplify_eq.
Qed.

End os_facts.

(** ** Resolving joined paths *)
Module resolve_facts.
Import path os vocab path_facts.

Lemma undot_dots (st : list string) : Forall (eq "..") st -> undot st = [].
Proof.
  induction 1 as [|s st <- _ IH]; [done|]. unfold undot in *.
  by rewrite filter_cons_False by (by intros ?).
Qed.

(** From the root, the [..] elements that lead a relative path are lost. *)
Lemma step_undot (sa : list string) (x : string) :
  canon false sa -> step true (undot sa) x = undot (step false sa x).
Proof.
  intros Hsa. unfold step. repeat case_decide; try done.
  - destruct sa as [|top below]; [done|].
    destruct (decide (top = "..")) as [->|Htop].
    + destruct Hsa as [[Hr _]|(_ & _ & Hdots)]; [by destruct (real_dotdot Hr)|].
      unfold undot. rewrite !filter_cons_False by (by intros ?).
      fold (undot below). by rewrite undot_dots.
    + unfold undot. rewrite filter_cons_True by done. by rewrite decide_False.
  - unfold undot. by rewrite filter_cons_True.
Qed.

Lemma norm_undot (segs sa : list string) :
  Forall no_slash segs -> canon false sa ->
  norm true segs (undot sa) = undot (norm false segs sa).
Proof.
  intros Hsegs. revert sa.
  induction Hsegs as [|x segs Hx _ IH]; intros sa Hsa; [done|].
  simpl. rewrite step_undot by done. apply IH. by apply step_canon.
Qed.

Lemma norm_undot_nil (p : string) :
  norm true (split p) [] = undot (norm false (split p) []).
Proof. by apply (norm_undot (split p) []); [apply split_Forall_no_slash|]. Qed.

(** Cleaning a path does not change what it resolves to. *)
Lemma resolve_Clean (p : string) : p <> "" -> resolve (Clean p) = resolve p.
Proof.
  intros Hp. unfold resolve. f_equal.
  destruct (rooted p) eqn:Hr.
  - rewrite <- Hr. by apply norm_split_Clean.
  - pose proof (Clean_canon p) as Hc. rewrite Hr in Hc.
    rewrite !norm_undot_nil. f_equal. unfold Clean. rewrite decide_False, Hr by done.
    by apply norm_split_render.
Qed.

Lemma Join2 (a b : string) : a <> "" -> Join [a; b] = Clean (a +:+ String slash b).
Proof.
  intros Ha. unfold Join.
  assert (join_buf "" [a; b] = a +:+ String slash b) as ->.
  { simpl. rewrite (decide_False (P := a = "")) by done.
    by rewrite (decide_False (P := a = "")) by done. }
  by rewrite decide_False by (by intros [? _]%append_eq_nil).
Qed.

Lemma resolve_Join (a b : string) :
  a <> "" ->
  resolve (Join [a; b]) = rev (norm true (split b) (rev (resolve a))).
Proof.
  intros Ha. rewrite Join2 by done.
  rewrite resolve_Clean by (by intros [? _]%append_eq_nil).
  unfold resolve. by rewrite split_app_slash, norm_app, rev_involutive.
Qed.

Lemma step_dotfree_inv (st : list string) (x : string) :
  Forall (fun s => s <> "..") (step false st x) -> Forall (fun s => s <> "..") st.
Proof.
  unfold step. repeat case_decide; try done.
  - destruct st as [|top below]; [done|]. case_decide.
    + by inversion 1.
    + intros Hbelow. by constructor.
  - by inversion 1.
Qed.

Lemma step_confined (r : bool) (st0 st : list string) (x : string) :
  Forall (fun s => s <> "..") (step false st x) ->
  step r (st ++ st0) x = step false st x ++ st0.
Proof.
  unfold step. repeat case_decide; try done.
  destruct st as [|top below].
  - by inversion 1.
  - simpl. case_decide; [by inversion 1|done].
Qed.

Lemma norm_confined (r : bool) (segs st0 : list string) :
  Forall (fun s => s <> "..") (norm false segs []) ->
  norm r segs st0 = norm false segs [] ++ st0.
Proof.
  induction segs as [|x segs IH] using rev_ind; [done|].
  rewrite !norm_app. simpl. intros H.
  rewrite IH by (by eapply step_dotfree_inv). by apply step_confined.
Qed.

Lemma resolve_Join_confined (a b : string) :
  a <> "" -> confined b ->
  resolve (Join [a; b]) = resolve a ++ rev (norm false (split b) []).
Proof.
  intros Ha Hb. rewrite resolve_Join by done.
  rewrite norm_confined by done. by rewrite rev_app_distr, rev_involutive.
Qed.

Lemma real_confined (e : string) : real e -> confined e.
Proof.
  intros He. pose proof He as (_ & _ & He3 & He4). unfold confined.
  rewrite split_no_slash by done.
  change (norm false [e] []) with (step false [] e). rewrite step_real by done.
  by repeat constructor.
Qed.

Lemma resolve_Join_real (a e : string) :
  a <> "" -> real e -> resolve (Join [a; e]) = resolve a ++ [e].
Proof.
  intros Ha He. rewrite resolve_Join_confined by (done || by apply real_confined).
  pose proof He as (_ & _ & _ & He4).
  rewrite split_no_slash by done.
  change (norm false [e] []) with (step false [] e). by rewrite step_real.
Qed.


End resolve_facts.

(** ** The names [MkdirTemp] makes *)
Module temp_facts.
Import path os vocab path_facts resolve_facts.

Lemma digit_is_digit (n : N) : is_digit (digit n) = true.
Proof.
  unfold is_digit, digit.
  assert (n mod 10 < 10)%N as Hlt by (by apply N.mod_upper_bound).
  set (m := (n mod 10)%N) in *. clearbody m.
  rewrite N_ascii_embedding by lia.
  apply andb_true_intro. split; apply N.leb_le; lia.
Qed.

Lemma is_digit_plain (c : ascii) :
  is_digit c = true -> c <> slash /\ c <> "*"%char /\ c <> "."%char.
Proof. destruct c as [[] [] [] [] [] [] [] []]; vm_compute; intros; done. Qed.

Lemma uitoa_go_all_digits (fuel : nat) (n : N) (acc : string) :
  all_digits acc -> all_digits (uitoa_go fuel n acc).
Proof.
  revert n acc. induction fuel as [|fuel IH]; intros n acc Hacc; simpl.
  - split; [apply digit_is_digit|done].
  - destruct (n <? 10)%N.
    + split; [apply digit_is_digit|done].
    + apply IH. split; [apply digit_is_digit|done].
Qed.

Lemma uitoa_go_nonempty (fuel : nat) (n : N) (acc : string) :
  uitoa_go fuel n acc <> "".
Proof.
  revert n acc. induction fuel as [|fuel IH]; intros n acc; simpl; [done|].
  destruct (n <? 10)%N; [done|apply IH].
Qed.

(** A decimal number starts with a digit. *)
Lemma uitoa_shape (n : N) :
  exists c d, uitoa n = String c d /\ is_digit c = true /\ all_digits d.
Proof.
  pose proof (uitoa_go_all_digits (N.size_nat n) n "" I) as Hall.
  pose proof (uitoa_go_nonempty (N.size_nat n) n "") as Hne.
  unfold uitoa. destruct (uitoa_go (N.size_nat n) n "") as [|c d]; [done|].
  destruct Hall. by exists c, d.
Qed.

Lemma all_digits_no_slash (s : string) : all_digits s -> no_slash s.
Proof.
  induction s as [|c s IH]; [done|]. intros [Hc Hs].
  split; [by apply is_digit_plain|auto].
Qed.

Lemma has_digit_app_r (a b : string) : has_digit b -> has_digit (a +:+ b).
Proof. induction a as [|c a IH]; [done|]. rewrite append_cons. simpl. auto. Qed.

Lemma has_digit_app_l (a b : string) : has_digit a -> has_digit (a +:+ b).
Proof.
  induction a as [|c a IH]; [done|]. rewrite append_cons. simpl.
  intros [?|?]; auto.
Qed.

Lemma has_digit_real (s : string) : has_digit s -> no_slash s -> real s.
Proof.
  intros Hd Hs. repeat split; [| | |done]; intros ->; simpl in Hd;
    vm_compute in Hd; intuition discriminate.
Qed.

Lemma has_slash_false (s : string) : has_slash s = false -> no_slash s.
Proof.
  induction s as [|c s IH]; [done|]. simpl.
  intros [Hc Hs]%orb_false_iff. split; [|auto].
  by apply bool_decide_eq_false in Hc.
Qed.

Lemma no_slash_app_inv (a b : string) :
  no_slash (a +:+ b) -> no_slash a /\ no_slash b.
Proof.
  induction a as [|c a IH]; [done|]. rewrite append_cons. simpl.
  intros [Hc Hab]. destruct (IH Hab). done.
Qed.

Lemma cut_last_star_spec (s p q : string) :
  cut_last_star s = Some (p, q) -> s = p +:+ String "*"%char q.
Proof.
  revert p q. induction s as [|c s IH]; intros p q; simpl; [done|].
  destruct (cut_last_star s) as [[p' q']|].
  - intros [= <- <-]. rewrite append_cons. f_equal. by apply IH.
  - case_decide; [|done]. intros [= <- <-]. by subst.
Qed.

Lemma prefixAndSuffix_spec (pattern p q : string) :
  prefixAndSuffix pattern = Ok (p, q) ->
  no_slash pattern
  /\ (pattern = p +:+ String "*"%char q \/ (pattern = p /\ q = "")).
Proof.
  unfold prefixAndSuffix. destruct (has_slash pattern) eqn:Hs; [done|].
  apply has_slash_false in Hs. split; [done|].
  destruct (cut_last_star pattern) as [[p' q']|] eqn:Hc.
  - left. injection H as <- <-. by apply cut_last_star_spec.
  - right. by injection H as <- <-.
Qed.

(** The name of a temporary directory is a real path element, and not the
    pattern it was made from. *)
Lemma temp_name_real (pattern p q : string) (n : N) :
  prefixAndSuffix pattern = Ok (p, q) ->
  real (p +:+ uitoa n +:+ q) /\ p +:+ uitoa n +:+ q <> pattern.
Proof.
  intros [Hns Hpat]%prefixAndSuffix_spec.
  destruct (uitoa_shape n) as (c & d & Hu & Hc & Hd).
  assert (no_slash p /\ no_slash q) as [Hp Hq].
  { destruct Hpat as [->|[-> ->]]; [|done].
    apply no_slash_app_inv in Hns as [? [_ ?]]. done. }
  split.
  - apply has_digit_real.
    + apply has_digit_app_r, has_digit_app_l. rewrite Hu. by left.
    + apply no_slash_app; [done|]. apply no_slash_app; [|done].
      rewrite Hu. split; [by apply is_digit_plain|by apply all_digits_no_slash].
  - destruct Hpat as [->|[-> ->]].
    + intros Heq%(inj (String.app p)). rewrite Hu, append_cons in Heq.
      injection Heq as -> _. by apply is_digit_plain in Hc as (_ & ? & _).
    + rewrite append_nil_r. rewrite <- (append_nil_r p) at 2.
      intros Heq%(inj (String.app p)). by rewrite Hu in Heq.
Qed.

Lemma resolve_app_slash_real (d nm : string) :
  real nm -> resolve (d +:+ String slash nm) = resolve d ++ [nm].
Proof.
  intros Hnm. pose proof Hnm as (_ & _ & _ & Hns). unfold resolve.
  rewrite split_app_slash, norm_app, (split_no_slash nm) by done.
  set (st := norm true (split d) []).
  change (norm true [nm] st) with (step true st nm). by rewrite step_real.
Qed.

Lemma resolve_trailing_slash (d : string) :
  resolve (d +:+ String slash "") = resolve d.
Proof. unfold resolve. by rewrite split_app_slash, norm_app. Qed.

Lemma ends_with_slash_inv (s : string) :
  ends_with_slash s = true -> exists d, s = d +:+ String slash "".
Proof.
  induction s as [|c s IH]; [done|]. simpl. destruct s as [|c' s'].
  - intros ->%bool_decide_eq_true. by exists "".
  - intros [d Hd]%IH. exists (String c d). by rewrite append_cons, <- Hd.
Qed.

Lemma resolve_temp (dir p u q : string) :
  real (p +:+ u +:+ q) ->
  resolve (joinPath dir p +:+ u +:+ q) = resolve dir ++ [p +:+ u +:+ q].
Proof.
  intros Hreal. unfold joinPath. destruct (ends_with_slash dir) eqn:E.
  - apply ends_with_slash_inv in E as [d ->].
    rewrite resolve_trailing_slash, <- resolve_app_slash_real by done.
    by rewrite !append_assoc.
  - rewrite <- resolve_app_slash_real by done. by rewrite !append_assoc.
Qed.

(** The temporary directory and the version directory are two different
    entries of the cache directory of the tool. *)
Lemma temp_beside_version (env : Env) (execCacheDir directory tempDir : string)
    (w w' : World) :
  execCacheDir <> "" -> real directory ->
  MkdirTemp env execCacheDir directory w = (Ok tempDir, w') ->
  exists nm,
    nm <> directory
    /\ resolve tempDir = resolve execCacheDir ++ [nm]
    /\ resolve (Join [execCacheDir; directory])
       = resolve execCacheDir ++ [directory]
    /\ fs w' = insert (resolve tempDir) (Dir 448) (fs w)
    /\ trace w' = trace w
    /\ tempDir <> "".
Proof.
  intros Hdir Hreal E.
  destruct (os_facts.MkdirTemp_spec _ _ _ _ _ _ E)
    as (Ht & p & q & n & Hps & -> & Hfs).
  destruct (temp_name_real _ _ _ n Hps) as [Hnm Hne].
  exists (p +:+ uitoa n +:+ q). repeat split; try done.
  - by apply resolve_temp.
  - by apply resolve_Join_real.
  - unfold joinPath. destruct execCacheDir; [done|].
    by destruct (ends_with_slash _).
Qed.

End temp_facts.

(** ** What a fetch touches *)
Module fetch_facts.
Import path os vocab path_facts resolve_facts temp_facts.

Lemma defer_inv {A} (cleanup : World -> World) (m : M A) w r w' :
  defer cleanup m w = (r, w') -> exists w1, m w = (r, w1) /\ w' = cleanup w1.
Proof.
  unfold defer. destruct (m w) as [r1 w1]. intros [= <- <-]. eauto.
Qed.



Lemma lift_quiet {A} (r : result A) : quiet (lift r).
Proof. intros w r' w' [= _ <-]. done. Qed.



Lemma Stderr_silent msg : silent (Stderr msg).
Proof.
  intros w r w' [= _ <-]. exists [EvStderr msg]. split; [done|].
  by repeat constructor.
Qed.

Lemma http_GET_silent env url : silent (http_GET env url).
Proof.
  intros w r w' [= _ <-]. exists [EvHttpGet url]. split; [done|].
  by repeat constructor.
Qed.

(** A regular entry: the file is opened, then written. *)
Lemma open_copy_spec (p1 p2 target : string) (mode : Z) data derr w r w' :
  (let* f := wrap p1 (OpenFile target mode) in
   wrap p2 (Copy f data derr)) w = (r, w') ->
  trace w' = trace w /\ fs_frame (eq (resolve target)) w w'.
Proof.
  intros [(f & w1 & E1 & E2)|(e & E1 & _)]%bind_inv.
  - apply wrap_inv in E1 as [(f' & E1 & [= <-])|(e & _ & [=])].
    destruct (os_facts.OpenFile_spec _ _ _ _ _ E1) as (T1 & Hf & F1).
    rewrite (Hf f eq_refl) in E2.
    assert (trace w' = trace w1 /\ fs_frame (eq (resolve target)) w1 w') as [T2 F2].
    { apply wrap_inv in E2 as [(? & E2 & _)|(? & E2 & _)];
        by apply os_facts.Copy_spec in E2. }
    split; [congruence|by eapply fs_frame_trans].
  - apply wrap_inv in E1 as [(f' & _ & [=])|(e' & E1 & _)].
    by destruct (os_facts.OpenFile_spec _ _ _ _ _ E1) as (T1 & _ & F1).
Qed.

Lemma untar_spec (r : tar.stream) (dir : string) w res w' :
  tarball.untar r dir w = (res, w') ->
  trace w' = trace w
  /\ fs_frame (fun k => exists name, In name (entry_names r)
                        /\ k `prefix_of` resolve (Join [dir; name])) w w'.
Proof.
  revert w. induction r as [| |header data derr rest IH]; intros w; simpl.
  - intros [= _ <-]. split; [done|apply fs_frame_refl].
  - intros [= _ <-]. split; [done|apply fs_frame_refl].
  - set (target := Join [dir; tar.Name header]).
    match goal with |- context [match ?e w with _ => _ end] => set (entry := e) end.
    assert (forall r1 w1, entry w = (r1, w1) ->
              trace w1 = trace w
              /\ fs_frame (fun k => k `prefix_of` resolve target) w w1) as Hentry.
    { intros r1 w1. unfold entry. repeat case_decide.
      - intros E. split.
        + by eapply quiet_wrap; [apply os_facts.MkdirAll_quiet|].
        + by eapply touches_wrap; [apply os_facts.MkdirAll_touches|].
      - intros [T F]%open_copy_spec. split; [done|].
        intros k Hk. apply F. by intros <-.
      - intros [= _ <-]. split; [done|apply fs_frame_refl]. }
    destruct (entry w) as [[[]|e] w1] eqn:E; destruct (Hentry _ _ eq_refl) as [T1 F1].
    + intros [T2 F2]%IH. split; [congruence|].
      intros k Hk. rewrite F2, F1; [done| |].
      * intros Hp. apply Hk. exists (tar.Name header). split; [by left|done].
      * intros (name & Hin & Hp). apply Hk. exists name. split; [by right|done].
    + intros [= _ <-]. split; [done|].
      intros k Hk. apply F1. intros Hp. apply Hk.
      exists (tar.Name header). split; [by left|done].
Qed.

Lemma tarball_Fetch_silent env fetcher params tempDir :
  silent (tarball.Fetch env fetcher params tempDir).
Proof.
  unfold tarball.Fetch.
  apply silent_bind; [apply silent_wrap, quiet_silent, lift_quiet|intros url].
  apply silent_bind; [apply Stderr_silent|intros _].
  apply silent_bind; [apply silent_wrap, http_GET_silent|intros resp].
  apply silent_bind; [apply silent_wrap, quiet_silent, lift_quiet|intros r].
  apply quiet_silent. intros w res w' E. by apply untar_spec in E as [? _].
Qed.

Lemma binary_Fetch_silent env fetcher params tempDir executable :
  silent (binary.Fetch env fetcher params tempDir executable).
Proof.
  unfold binary.Fetch.
  apply silent_bind; [apply silent_wrap, quiet_silent, lift_quiet|intros url].
  apply silent_bind.
  { apply silent_wrap, quiet_silent. intros w r w' E.
    by apply os_facts.OpenFile_spec in E as [? _]. }
  intros f.
  apply silent_bind; [apply Stderr_silent|intros _].
  apply silent_bind; [apply silent_wrap, http_GET_silent|intros resp].
  apply silent_wrap, quiet_silent. intros w r w' E.
  by apply os_facts.Copy_spec in E as [? _].
Qed.

Lemma dispatch_silent env t tempDir executableBase :
  silent (dispatch env t tempDir executableBase).
Proof.
  unfold dispatch. destruct (TarballFetcher t) as [tf|], (BinaryFetcher t) as [bf|].
  - apply tarball_Fetch_silent.
  - apply tarball_Fetch_silent.
  - apply binary_Fetch_silent.
  - apply quiet_silent. by intros w r w' [= _ <-].
Qed.

Lemma fetcher_silent env t cacheDir execCacheDir directory versionedCacheDir
    executableBase :
  silent (fetcher env t cacheDir execCacheDir directory versionedCacheDir
            executableBase).
Proof.
  unfold fetcher.
  apply silent_bind;
    [apply silent_wrap, quiet_silent, os_facts.MkdirAll_quiet|intros _].
  apply silent_bind.
  { apply silent_wrap, quiet_silent. intros w r w' E.
    by apply os_facts.MkdirTemp_spec in E as [? _]. }
  intros tempDir w r w' (w1 & E & ->)%defer_inv.
  assert (silent (let* _ := dispatch env t tempDir executableBase in
                  Rename tempDir versionedCacheDir)) as Hs.
  { apply silent_bind; [apply dispatch_silent|intros _].
    apply quiet_silent, os_facts.Rename_quiet. }
  exact (Hs _ _ _ E).
Qed.




End fetch_facts.

(** ** Directories stay *)
Module dirs_facts.
Import path os vocab fetch_facts.

Lemma dirs_kept_refl w : dirs_kept w w.
Proof. by intros k perm. Qed.

Lemma dirs_kept_trans w1 w2 w3 :
  dirs_kept w1 w2 -> dirs_kept w2 w3 -> dirs_kept w1 w3.
Proof. intros H1 H2 k perm Hk. by apply H2, H1. Qed.

Lemma keeps_dirs_bind {A B} (m : M A) (k : A -> M B) :
  keeps_dirs m -> (forall a, keeps_dirs (k a)) -> keeps_dirs (bind m k).
Proof.
  intros Hm Hk w r w' [(a & w1 & E1 & E2)|(e & E1 & _)]%bind_inv.
  - eapply dirs_kept_trans; [by eapply Hm|by eapply Hk].
  - by eapply Hm.
Qed.

Lemma keeps_dirs_wrap {A} prefix (m : M A) : keeps_dirs m -> keeps_dirs (wrap prefix m).
Proof. intros Hm w r w' [(a & E & _)|(e & E & _)]%wrap_inv; by eapply Hm. Qed.

Lemma keeps_dirs_same_fs {A} (m : M A) :
  (forall w, fs (snd (m w)) = fs w) -> keeps_dirs m.
Proof.
  intros Hm w r w' E k perm. pose proof (Hm w) as Hw. rewrite E in Hw. simpl in Hw.
  by rewrite Hw.
Qed.

(** A node put where [lookup] found none leaves every directory in place. *)
Lemma insert_fresh (f : FS) (k0 : list string) (n : node) k perm :
  lookup f k0 = None -> f k = Some (Dir perm) -> insert k0 n f k = Some (Dir perm).
Proof.
  intros Hnone Hk. unfold insert. case_decide; [|done]. subst.
  destruct k0; [done|]. simpl in Hnone. congruence.
Qed.

Lemma mkdir_all_dirs (todo done : list string) (perm0 : Z) (f f' : FS) e :
  mkdir_all done todo perm0 f = (e, f') ->
  forall k perm, f k = Some (Dir perm) -> f' k = Some (Dir perm).
Proof.
  revert done f. induction todo as [|seg rest IH]; intros done f E k perm Hk;
    simpl in E.
  - by injection E as _ <-.
  - destruct (lookup f (done ++ [seg])) as [[]|] eqn:El.
    + by eapply IH.
    + by injection E as _ <-.
    + eapply IH; [done|]. by apply insert_fresh.
Qed.

Lemma MkdirAll_dirs (name : string) (perm : Z) : keeps_dirs (MkdirAll name perm).
Proof.
  intros w r w' E k perm' Hk. unfold MkdirAll, PathError, fail in E.
  case_decide; [by injection E as _ <-|].
  destruct (mkdir_all [] (resolve name) perm (fs w)) as [[e|] f] eqn:Em;
    injection E as _ <-; simpl; by eapply mkdir_all_dirs.
Qed.

Lemma OpenFile_dirs (name : string) (perm : Z) : keeps_dirs (OpenFile name perm).
Proof.
  intros w r w' E k perm' Hk. unfold OpenFile, PathError, fail in E.
  destruct (lookup (fs w) (resolve name)) as [[]|] eqn:El;
    [| |destruct (lookup (fs w) (removelast (resolve name))) as [[]|]];
    injection E as _ <-; try done.
  simpl. by apply insert_fresh.
Qed.

Lemma Copy_dirs k0 data derr : keeps_dirs (Copy k0 data derr).
Proof.
  intros w r w' E k perm Hk.
  assert (w' = set_fs (write k0 data (fs w)) w) as ->
    by (destruct derr; by injection E as _ <-).
  simpl. unfold write. destruct (fs w k0) as [[]|] eqn:E0; try done.
  unfold insert. case_decide; [|done]. subst. congruence.
Qed.

Lemma untar_dirs (r : tar.stream) (dir : string) : keeps_dirs (tarball.untar r dir).
Proof.
  induction r as [| |header data derr rest IH]; intros w res w'; simpl.
  - intros [= _ <-]. apply dirs_kept_refl.
  - intros [= _ <-]. apply dirs_kept_refl.
  - match goal with |- context [match ?e w with _ => _ end] => set (entry := e) end.
    assert (keeps_dirs entry) as Hentry.
    { unfold entry. repeat case_decide.
      - apply keeps_dirs_wrap, MkdirAll_dirs.
      - apply keeps_dirs_bind; [apply keeps_dirs_wrap, OpenFile_dirs|intros f].
        apply keeps_dirs_wrap, Copy_dirs.
      - by apply keeps_dirs_same_fs. }
    destruct (entry w) as [[[]|e] w1] eqn:E.
    + intros E2. eapply dirs_kept_trans; [by eapply Hentry|by eapply IH].
    + intros [= _ <-]. by eapply Hentry.
Qed.

Lemma dispatch_dirs env t tempDir executableBase :
  keeps_dirs (dispatch env t tempDir executableBase).
Proof.
  assert (forall f, keeps_dirs (tarball.Fetch env f (Params t) tempDir)) as Htar.
  { intros f. unfold tarball.Fetch.
    apply keeps_dirs_bind; [by apply keeps_dirs_wrap, keeps_dirs_same_fs|intros url].
    apply keeps_dirs_bind; [by apply keeps_dirs_same_fs|intros _].
    apply keeps_dirs_bind; [by apply keeps_dirs_wrap, keeps_dirs_same_fs|intros resp].
    apply keeps_dirs_bind; [by apply keeps_dirs_wrap, keeps_dirs_same_fs|intros r].
    apply untar_dirs. }
  unfold dispatch.
  destruct (TarballFetcher t) as [tf|], (BinaryFetcher t) as [bf|]; try apply Htar.
  - unfold binary.Fetch.
    apply keeps_dirs_bind; [by apply keeps_dirs_wrap, keeps_dirs_same_fs|intros url].
    apply keeps_dirs_bind; [apply keeps_dirs_wrap, OpenFile_dirs|intros f].
    apply keeps_dirs_bind; [by apply keeps_dirs_same_fs|intros _].
    apply keeps_dirs_bind; [by apply keeps_dirs_wrap, keeps_dirs_same_fs|intros resp].
    apply keeps_dirs_wrap, Copy_dirs.
  - by apply keeps_dirs_same_fs.
Qed.

(** The steps of the fetcher closure. *)
Lemma fetcher_run env t cacheDir execCacheDir directory versionedCacheDir
    executableBase w r w' :
  fetcher env t cacheDir execCacheDir directory versionedCacheDir executableBase w
    = (r, w') ->
  (exists e, MkdirAll execCacheDir 493 w = (Err e, w')
             /\ r = Err (ErrWrap ("error creating cache dir " +:+ cacheDir +:+ ": ") e))
  \/ (exists w1 e,
        MkdirAll execCacheDir 493 w = (Ok tt, w1)
        /\ MkdirTemp env execCacheDir directory w1 = (Err e, w')
        /\ r = Err (ErrWrap ("error creating temporary directory "
                             +:+ Join [cacheDir; directory] +:+ ": ") e))
  \/ (exists w1 tempDir w2 w3,
        MkdirAll execCacheDir 493 w = (Ok tt, w1)
        /\ MkdirTemp env execCacheDir directory w1 = (Ok tempDir, w2)
        /\ (let* _ := dispatch env t tempDir executableBase in
            Rename tempDir versionedCacheDir) w2 = (r, w3)
        /\ w' = RemoveAll tempDir w3).
Proof.
  unfold fetcher.
  intros [([] & w1 & E1 & E2)|(e & E1 & ->)]%bind_inv.
  - apply wrap_inv in E1 as [(? & E1 & _)|(? & _ & [=])]. destruct x.
    apply bind_inv in E2 as [(tempDir & w2 & E2 & E3)|(e & E2 & ->)].
    + apply wrap_inv in E2 as [(? & E2 & [= <-])|(? & _ & [=])].
      apply defer_inv in E3 as (w3 & E3 & ->).
      right; right. by exists w1, tempDir, w2, w3.
    + apply wrap_inv in E2 as [(? & _ & [=])|(e' & E2 & [= ->])].
      right; left. by exists w1, e'.
  - apply wrap_inv in E1 as [(? & _ & [=])|(e' & E1 & [= ->])].
    left. by exists e'.
Qed.

End dirs_facts.

(** ** The fetch routine *)
Section fetch.
Import path os vocab path_facts resolve_facts temp_facts fetch_facts dirs_facts.


Lemma siblings_below (a k : list string) (d nm : string) :
  nm <> d -> (a ++ [d]) `prefix_of` k -> (a ++ [nm]) `prefix_of` k -> False.
Proof.
  intros Hne [x ->] [y Hy]. rewrite <- !app_assoc in Hy.
  apply app_inv_head in Hy. by injection Hy.
Qed.


Lemma safe_env_confined : archives_confined demo.safe_env.
Proof.
  intros body berr r. simpl. unfold demo.safe_decoder. case_decide; [|done].
  intros [= <-]. repeat constructor; vm_compute; repeat constructor; discriminate.
Qed.

Lemma real_v123 : real "v1.2.3".
Proof. repeat split; discriminate. Qed.

(** With an empty directory pattern the version directory is the cache
    directory of the tool, which the fetch creates before it fails for want
    of a fetcher. *)
Lemma empty_directory_touched :
  ~ untouched_claim (fun _ => True) archives_confined.
Proof.
  intros H.
  pose proof (getConfig_Ok demo.safe_env "grep-like" "nodirectory.toml" _ ""
                "/home/u/.cache" eq_refl eq_refl eq_refl) as Hcfg.
  match type of Hcfg with _ = Ok (_, ?f) => set (fetchFunc := f) in * end.
  specialize (H demo.safe_env "grep-like" "nodirectory.toml" _ fetchFunc _ _ _
                demo.w0 (snd (fetchFunc demo.w0))
                (ErrNew "no fetcher specified") eq_refl eq_refl eq_refl Hcfg
                I safe_env_confined).
  assert (fetchFunc demo.w0
          = (Err (ErrNew "no fetcher specified"), snd (fetchFunc demo.w0))) as E.
  { rewrite (surjective_pairing (fetchFunc demo.w0)) at 1. f_equal. }
  specialize (H E ["home"; "u"; ".cache"; "polymorph"; "grep-like"]).
  match type of H with
  | ?P -> _ => assert P as HP by (vm_compute; exists []; reflexivity)
  end.
  specialize (H HP). vm_compute in H. done.
Qed.








(** C1, where it fails: a template with both fetch specs is fetched as a
    tarball and executed. *)
Lemma exclusivity_claim_fails : ~ exclusivity_claim.
Proof.
  intros H.
  destruct (H demo.env "both.toml" "grep-like" [] _ demo.w0 eq_refl) as [[err He] _].
  - split; intros _; by eexists.
  - vm_compute in He. discriminate.
Qed.

(** C1, amended. The fetch routine of a template with neither fetch spec
    fails without any network access and without logging anything; once its
    temporary directory is made, the error is [no fetcher specified] and
    the temporary directory is removed.  (A template with both specs is not
    rejected: the tarball fetcher is used.) *)
Theorem fetch_no_fetcher (env : Env) (t : ExecTemplate)
    (cacheDir execCacheDir directory versionedCacheDir executableBase : string)
    (w w' : World) (r : result unit) :
  TarballFetcher t = None ->
  BinaryFetcher t = None ->
  fetcher env t cacheDir execCacheDir directory versionedCacheDir executableBase w
    = (r, w') ->
  trace w' = trace w
  /\ (exists e, r = Err e)
  /\ (forall w1 tempDir w2,
        MkdirAll execCacheDir 493 w = (Ok tt, w1) ->
        MkdirTemp env execCacheDir directory w1 = (Ok tempDir, w2) ->
        r = Err (ErrNew "no fetcher specified") /\ w' = RemoveAll tempDir w2).
Proof.
  intros Htar Hbin Hrun.
  apply fetcher_run in Hrun
    as [(e1 & E1 & ->)|[(w1 & e1 & E1 & E2 & ->)|(w1 & tempDir & w2 & w3 & E1 & E2 & E3 & ->)]].
  - split; [by apply os_facts.MkdirAll_quiet in E1|].
    split; [by eexists|]. intros; congruence.
  - split.
    { apply os_facts.MkdirTemp_spec in E2 as [-> _].
      by apply os_facts.MkdirAll_quiet in E1. }
    split; [by eexists|]. intros; congruence.
  - unfold dispatch in E3. rewrite Htar, Hbin in E3.
    injection E3 as <- <-. split.
    { simpl. apply os_facts.MkdirTemp_spec in E2 as [-> _].
      by apply os_facts.MkdirAll_quiet in E1. }
    split; [by eexists|].
    intros w1' tempDir' w2' E1' E2'.
    assert (w1' = w1) as -> by congruence.
    assert (tempDir' = tempDir /\ w2' = w2) as [-> ->] by (split; congruence).
    done.
Qed.

Lemma fetch_no_fetcher_witness :
  trace (snd (fetcher demo.env (demo.template_of "v{{.version}}" None None)
                "/home/u/.cache" "/home/u/.cache/polymorph/grep-like" "v1.2.3"
                "/home/u/.cache/polymorph/grep-like/v1.2.3" "grep-like" demo.w0))
  = trace demo.w0.
Proof.
  exact (proj1 (fetch_no_fetcher demo.env (demo.template_of "v{{.version}}" None None)
                  "/home/u/.cache" "/home/u/.cache/polymorph/grep-like" "v1.2.3"
                  "/home/u/.cache/polymorph/grep-like/v1.2.3" "grep-like"
                  demo.w0 _ _ eq_refl eq_refl (surjective_pairing _))).
Defined.

Lemma dispatch_tarball (env : Env) (t : ExecTemplate) (tf : Fetcher)
    (tempDir executableBase : string) (w : World) :
  TarballFetcher t = Some tf ->
  dispatch env t tempDir executableBase w
  = tarball.Fetch env tf (Params t) tempDir w.
Proof. intros Htf. unfold dispatch. by rewrite Htf. Qed.

(** C10. When both fetchers are present, the dispatch runs the tarball
    fetcher and only it: the fetch is the tarball fetch, whatever the binary
    fetcher is, and the whole fetch routine behaves as for the template
    without its binary fetcher. *)
Theorem tarball_priority (env : Env) (t : ExecTemplate)
    (tf bf : Fetcher) :
  TarballFetcher t = Some tf ->
  BinaryFetcher t = Some bf ->
  (forall tempDir executableBase w,
     dispatch env t tempDir executableBase w
     = tarball.Fetch env tf (Params t) tempDir w)
  /\ (forall cacheDir execCacheDir directory versionedCacheDir executableBase w,
        fetcher env t cacheDir execCacheDir directory versionedCacheDir
          executableBase w
        = fetcher env (without_binary t) cacheDir execCacheDir directory
            versionedCacheDir executableBase w).
Proof.
  intros Htf Hbf. split.
  - intros. by apply dispatch_tarball.
  - intros. unfold fetcher, bind, defer.
    destruct (wrap _ (MkdirAll execCacheDir 493) w) as [[[]|e] w1]; [|done].
    destruct (wrap _ (MkdirTemp env execCacheDir directory) w1) as [[tempDir|e] w2];
      [|done].
    by rewrite !(dispatch_tarball _ _ tf) by done.
Qed.

Lemma tarball_priority_witness :
  fst (dispatch demo.env
         (demo.template_of "v{{.version}}"
            (demo.fetch_url "https://example.test/grep-{{.version}}.tar.gz")
            (demo.fetch_url "https://example.test/grep-{{.version}}"))
         "/tmp/x" "grep-like" demo.w0)
  = fst (tarball.Fetch demo.env
           {| URL := "https://example.test/grep-{{.version}}.tar.gz" |}
           {[ "version" := "1.2.3" ]} "/tmp/x" demo.w0).
Proof.
  exact (f_equal fst
           (proj1 (tarball_priority demo.env
                     (demo.template_of "v{{.version}}"
                        (demo.fetch_url "https://example.test/grep-{{.version}}.tar.gz")
                        (demo.fetch_url "https://example.test/grep-{{.version}}"))
                     _ _ eq_refl eq_refl) "/tmp/x" "grep-like" demo.w0)).
Defined.

Lemma mkdir_temp_loop_status (f : Z -> Z) (env : Env) (tries : nat)
    (dir prefix suffix : string) (w : World) :
  mkdir_temp_loop (with_status f env) tries dir prefix suffix w
  = mkdir_temp_loop env tries dir prefix suffix w.
Proof.
  revert w. induction tries as [|tries IH]; intros w; simpl; [done|].
  destruct (Mkdir _ 448 _) as [[|e] w2]; [done|].
  by rewrite IH.
Qed.

Lemma tarball_Fetch_status (f : Z -> Z) (env : Env) (tf : Fetcher)
    (params : gmap string string) (tempDir : string) (w : World) :
  tarball.Fetch (with_status f env) tf params tempDir w
  = tarball.Fetch env tf params tempDir w.
Proof.
  unfold tarball.Fetch, bind, wrap, lift.
  change (ExpandTemplate (with_status f env) (URL tf) params)
    with (ExpandTemplate env (URL tf) params).
  destruct (ExpandTemplate env (URL tf) params) as [url|]; [|done].
  unfold Stderr, http_GET. simpl. by destruct (http_Get env url).
Qed.

Lemma binary_Fetch_status (f : Z -> Z) (env : Env) (bf : Fetcher)
    (params : gmap string string) (tempDir executable : string) (w : World) :
  binary.Fetch (with_status f env) bf params tempDir executable w
  = binary.Fetch env bf params tempDir executable w.
Proof.
  unfold binary.Fetch, bind, wrap, lift.
  change (ExpandTemplate (with_status f env) (URL bf) params)
    with (ExpandTemplate env (URL bf) params).
  destruct (ExpandTemplate env (URL bf) params) as [url|]; [|done].
  destruct (OpenFile _ 493 w) as [[k|] w1]; [|done].
  unfold Stderr, http_GET. simpl. by destruct (http_Get env url).
Qed.

Lemma dispatch_status (f : Z -> Z) (env : Env) (t : ExecTemplate)
    (tempDir executableBase : string) (w : World) :
  dispatch (with_status f env) t tempDir executableBase w
  = dispatch env t tempDir executableBase w.
Proof.
  unfold dispatch. destruct (TarballFetcher t) as [tf|], (BinaryFetcher t) as [bf|];
    try done; (apply tarball_Fetch_status || apply binary_Fetch_status).
Qed.

(** C4, where it fails: on a web that answers 404 to everything, the binary
    fetch succeeds and installs the body of the 404 response as the
    executable. *)
Lemma status_claim_fails : ~ status_claim.
Proof.
  intros H.
  destruct (H (with_status (fun _ => 404) demo.env) demo.binary_template
              "/home/u/.cache" "/home/u/.cache/polymorph/grep-like" "v1.2.3"
              "/home/u/.cache/polymorph/grep-like/v1.2.3" "grep-like" demo.w0)
    as [e He].
  - intros url resp. simpl. destruct (demo.web url); [|done].
    intros [= <-]. simpl. lia.
  - vm_compute. discriminate.
  - vm_compute in He. discriminate.
Qed.

(** C4, amended. The fetch does not look at the status of the response: with
    any other status codes on the responses, the fetch routine returns the
    same result and leaves the same world, so that a response with a
    non-success status is installed like a successful one. *)
Theorem fetch_ignores_status (f : Z -> Z) (env : Env) (t : ExecTemplate)
    (cacheDir execCacheDir directory versionedCacheDir executableBase : string)
    (w : World) :
  fetcher (with_status f env) t cacheDir execCacheDir directory versionedCacheDir
    executableBase w
  = fetcher env t cacheDir execCacheDir directory versionedCacheDir
      executableBase w.
Proof.
  unfold fetcher, bind, defer.
  destruct (wrap _ (MkdirAll execCacheDir 493) w) as [[[]|e] w1]; [|done].
  assert (MkdirTemp (with_status f env) execCacheDir directory w1
          = MkdirTemp env execCacheDir directory w1) as Htemp.
  { unfold MkdirTemp. destruct (prefixAndSuffix directory) as [[p q]|]; [|done].
    apply mkdir_temp_loop_status. }
  unfold wrap. rewrite Htemp.
  destruct (MkdirTemp env execCacheDir directory w1) as [[tempDir|e] w2]; [|done].
  by rewrite dispatch_status.
Qed.

End fetch.

(** ** The launch controller *)
Section launch.
Import vocab fetch_facts.



Lemma getConfig_silent (env : Env) (executableName templateFile execPath : string)
    (fetchFunc : M unit) :
  getConfig env executableName templateFile = Ok (execPath, fetchFunc) ->
  silent fetchFunc.
Proof.
  intros Hcfg.
  destruct (getConfig_inv _ _ _ _ _ Hcfg) as (t & d & c & Ht & Hd & Hc).
  rewrite (getConfig_Ok _ _ _ _ _ _ Ht Hd Hc) in Hcfg. injection Hcfg as _ <-.
  apply fetcher_silent.
Qed.

(** C5. When the first exec fails with an error other than not-found, the
    launcher returns that error, wrapped with the name of the executable,
    and does nothing else: only the exec is logged, the file system is as it
    was.  A run in which the fetch function was called is a run whose first
    exec failed with not-found. *)
Theorem runExec_exec_failure (env : Env) (templateFile executableName : string)
    (rest : list string) (execPath : string) (fetchFunc : M unit) (w : World) :
  getConfig env executableName templateFile = Ok (execPath, fetchFunc) ->
  (forall errno,
     syscall_Exec env (fs w) execPath (executableName :: rest) = Some errno ->
     errno <> ENOENT ->
     runExec env templateFile executableName rest w
     = (Returned (ErrWrap ("error executing " +:+ executableName +:+ ": ")
                    (ErrSyscall errno)),
        log (EvExec execPath (executableName :: rest)) w))
  /\ (forall evs,
        trace (snd (runExec env templateFile executableName rest w))
        = trace w ++ evs ->
        In EvFetch evs ->
        syscall_Exec env (fs w) execPath (executableName :: rest) = Some ENOENT).
Proof.
  intros Hcfg. unfold runExec, Exec. rewrite Hcfg. split.
  - intros errno -> Hne. simpl.
    by rewrite bool_decide_eq_false_2.
  - intros evs.
    destruct (syscall_Exec env (fs w) execPath (executableName :: rest))
      as [errno|]; simpl.
    + case_bool_decide as Herr; simpl; [by subst|].
      intros Heq%app_inv_head. subst evs. simpl. intros [|[]]. done.
    + intros Heq%app_inv_head. subst evs. simpl. intros [|[]]. done.
Qed.

Lemma runExec_exec_failure_witness :
  fst (runExec demo.env "binary.toml" ".." [] demo.w_published)
  = Returned (ErrWrap "error executing ..: " (ErrSyscall EACCES)).
Proof.
  pose proof (getConfig_Ok demo.env ".." "binary.toml" _ "v1.2.3" "/home/u/.cache"
                eq_refl eq_refl eq_refl) as Hcfg.
  rewrite (proj1 (runExec_exec_failure demo.env "binary.toml" ".." [] _ _
                    demo.w_published Hcfg) EACCES); [reflexivity| |discriminate].
  vm_compute. reflexivity.
Defined.



End launch.

(** * Further properties *)

(** ** [ExpandTemplate]: text, fields, unclosed actions *)
Section expansion_more.
Import template vocab.

Lemma lex_no_open (s : string) : no_open s -> lex false s = Some [PText s].
Proof.
  induction s as [|c s IH]; [done|]. simpl. destruct s as [|c' s'].
  - done.
  - intros [Hcc Hs]. rewrite IH by done.
    destruct (bool_decide (c = "{"%char)) eqn:E1;
      destruct (bool_decide (c' = "{"%char)) eqn:E2; try done.
    apply bool_decide_eq_true in E1, E2. tauto.
Qed.

Lemma lex_unclosed (body : string) : no_char "}" body -> lex true body = None.
Proof.
  induction body as [|c body IH]; [done|]. intros [Hc Hbody]. simpl.
  rewrite IH by done. destruct body; [done|].
  by rewrite (bool_decide_eq_false_2 (c = "}"%char)).
Qed.

(** X1. A pattern in which no action opens is expanded to itself, whatever the
    parameters: the empty pattern to the empty string, and single braces
    are text. *)
Theorem ExpandTemplate_text (env : Env) (s : string) (params : gmap string string) :
  no_open s -> ExpandTemplate env s params = Ok s.
Proof.
  intros Hs. unfold ExpandTemplate, Parse. rewrite lex_no_open by done.
  simpl. unfold Execute. simpl. by rewrite append_nil_r.
Qed.

Lemma ExpandTemplate_text_witness :
  ExpandTemplate demo.env "v1.{2}/x" ∅ = Ok "v1.{2}/x".
Proof.
  apply ExpandTemplate_text. simpl.
  repeat split; intros [? ?]; discriminate.
Defined.

(** X2. A reference to a key of the parameter map is replaced by the value of
    the key, between the text before it and the expansion of what follows;
    blanks around the field are allowed. *)
Theorem ExpandTemplate_field (env : Env) (pre k v post : string)
    (params : gmap string string) (ns : list node) :
  no_char "{" pre ->
  is_ident k = true ->
  params !! k = Some v ->
  Parse post = Tree ns ->
  exists out,
    ExpandTemplate env post params = Ok out
    /\ ExpandTemplate env (pre +:+ "{{." +:+ k +:+ "}}" +:+ post) params
       = Ok (pre +:+ v +:+ out)
    /\ ExpandTemplate env (pre +:+ "{{ ." +:+ k +:+ " }}" +:+ post) params
       = Ok (pre +:+ v +:+ out).
Proof.
  intros Hpre Hk Hv Hpost.
  destruct (exec_nodes_default params ns) as [out Hout].
  exists out. unfold ExpandTemplate, Execute. rewrite Hpost. simpl.
  split; [done|].
  assert (no_char "}" k) as Hbrace by (by apply alnum_no_brace, is_ident_alnum).
  assert (parse_action (" ." +:+ k +:+ " ") = Some (FieldNode k)) as Hblank.
  { unfold parse_action.
    change (trim_left (" ." +:+ k +:+ " ")) with (String "."%char (k +:+ " ")).
    assert (trim_right (k +:+ " ") = k) as Htrim.
    { pose proof (is_ident_alnum k Hk) as Hal. clear -Hal.
      induction k as [|c k IH]; [done|]. simpl in Hal.
      apply andb_true_iff in Hal as [Hc Hal]. rewrite append_cons. simpl.
      rewrite IH by done. by destruct (is_alnum_plain c Hc) as [_ ->]. }
    change (trim_right (String "."%char (k +:+ " ")))
      with (String "."%char (trim_right (k +:+ " "))).
    by rewrite Htrim, Hk. }
  unfold Parse in *.
  destruct (lex false post) as [ps|] eqn:Hlex; [|done].
  destruct (parse_pieces ps) as [ns'|] eqn:Hps; [|done].
  injection Hpost as ->.
  split.
  - change (pre +:+ "{{." +:+ k +:+ "}}" +:+ post)
      with (pre +:+ "{{" +:+ ("." +:+ k) +:+ "}}" +:+ post).
    rewrite lex_text by done. rewrite (lex_action ("." +:+ k)) by (by split).
    rewrite Hlex. simpl. rewrite parse_action_field, Hps by done. simpl.
    unfold eval_field. by rewrite Hv, Hout.
  - assert (pre +:+ "{{ ." +:+ k +:+ " }}" +:+ post
            = pre +:+ "{{" +:+ (" ." +:+ k +:+ " ") +:+ "}}" +:+ post) as ->.
    { rewrite !append_assoc. reflexivity. }
    rewrite lex_text by done.
    rewrite (lex_action (" ." +:+ k +:+ " ")).
    2:{ split; [done|]. split; [done|].
        clear -Hbrace. induction k as [|c k IH]; [by repeat split|].
        destruct Hbrace. rewrite append_cons. split; auto. }
    rewrite Hlex. simpl. rewrite Hblank, Hps. simpl.
    unfold eval_field. by rewrite Hv, Hout.
Qed.

Lemma ExpandTemplate_field_witness :
  exists out,
    ExpandTemplate demo.env "/x" {[ "version" := "1.2.3" ]} = Ok out
    /\ ExpandTemplate demo.env ("v" +:+ "{{." +:+ "version" +:+ "}}" +:+ "/x")
         {[ "version" := "1.2.3" ]} = Ok ("v" +:+ "1.2.3" +:+ out)
    /\ ExpandTemplate demo.env ("v" +:+ "{{ ." +:+ "version" +:+ " }}" +:+ "/x")
         {[ "version" := "1.2.3" ]} = Ok ("v" +:+ "1.2.3" +:+ out).
Proof.
  apply (ExpandTemplate_field demo.env "v" "version" "1.2.3" "/x"
           {[ "version" := "1.2.3" ]} [TextNode "/x"]).
  - simpl. split; [discriminate|exact I].
  - reflexivity.
  - reflexivity.
  - reflexivity.
Defined.

(** X3. A pattern whose last action is never closed is an error, not text:
    the expansion fails whatever the parameters. *)
Theorem ExpandTemplate_unclosed (env : Env) (pre body : string)
    (params : gmap string string) :
  no_char "{" pre ->
  no_char "}" body ->
  exists e, ExpandTemplate env (pre +:+ "{{" +:+ body) params = Err e.
Proof.
  intros Hpre Hbody. unfold ExpandTemplate, Parse.
  rewrite lex_text, lex_unclosed by done. simpl. by eexists.
Qed.

Lemma ExpandTemplate_unclosed_witness :
  exists e, ExpandTemplate demo.env ("v" +:+ "{{" +:+ ".version") ∅ = Err e.
Proof.
  apply ExpandTemplate_unclosed; simpl; repeat split; discriminate.
Defined.

End expansion_more.

(** ** The launcher: what a run logs, and how it ends *)
Section launch_more.
Import vocab os fetch_facts dirs_facts.

Lemma tarball_Fetch_log env fetcher params tempDir w r w' :
  tarball.Fetch env fetcher params tempDir w = (r, w') ->
  exists dl, download_log dl /\ trace w' = trace w ++ dl.
Proof.
  unfold tarball.Fetch, bind, wrap, lift, Stderr, http_GET.
  destruct (ExpandTemplate env (URL fetcher) params) as [url|e].
  2:{ intros [= _ <-]. exists []. split; [by left|by rewrite app_nil_r]. }
  assert (download_log
            [EvStderr ("Downloading tarball from " +:+ url +:+ "..." +:+ newline);
             EvHttpGet url]) as Hdl.
  { right. exists "tarball", url. split; [by left|done]. }
  eexists. split; [exact Hdl|].
  destruct (http_Get env url) as [resp|e]; [|by injection H as _ <-; simpl; rewrite <- app_assoc].
  destruct (gzip_tar env (Body resp) (BodyErr resp)) as [ar|e];
    [|by injection H as _ <-; simpl; rewrite <- app_assoc].
  apply untar_spec in H as [-> _]. simpl. by rewrite <- app_assoc.
Qed.

Lemma binary_Fetch_log env fetcher params tempDir executable w r w' :
  binary.Fetch env fetcher params tempDir executable w = (r, w') ->
  exists dl, download_log dl /\ trace w' = trace w ++ dl.
Proof.
  unfold binary.Fetch, bind, wrap, lift, Stderr, http_GET.
  destruct (ExpandTemplate env (URL fetcher) params) as [url|e].
  2:{ intros [= _ <-]. exists []. split; [by left|by rewrite app_nil_r]. }
  destruct (OpenFile _ 493 w) as [[k|e] w1] eqn:Eo.
  2:{ intros [= _ <-]. exists []. split; [by left|].
      apply os_facts.OpenFile_spec in Eo as [-> _]. by rewrite app_nil_r. }
  apply os_facts.OpenFile_spec in Eo as [Ht _].
  assert (download_log
            [EvStderr ("Downloading binary from " +:+ url +:+ "..." +:+ newline);
             EvHttpGet url]) as Hdl.
  { right. exists "binary", url. split; [by right|done]. }
  eexists. split; [exact Hdl|].
  destruct (http_Get env url) as [resp|e];
    [|by injection H as _ <-; simpl; rewrite Ht, <- app_assoc].
  destruct (Copy k (Body resp) (BodyErr resp) _) as [[?|?] w2] eqn:Ec;
    apply os_facts.Copy_spec in Ec as [Hc _]; injection H as _ <-;
    rewrite Hc; simpl; by rewrite Ht, <- app_assoc.
Qed.

Lemma fetcher_log env t cacheDir execCacheDir directory versionedCacheDir
    executableBase w r w' :
  fetcher env t cacheDir execCacheDir directory versionedCacheDir executableBase w
    = (r, w') ->
  exists dl, download_log dl /\ trace w' = trace w ++ dl.
Proof.
  intros Hrun. apply fetcher_run in Hrun
    as [(e1 & E1 & _)|[(w1 & e1 & E1 & E2 & _)|(w1 & tempDir & w2 & w3 & E1 & E2 & E3 & ->)]].
  - exists []. split; [by left|]. rewrite app_nil_r.
    by apply os_facts.MkdirAll_quiet in E1.
  - exists []. split; [by left|]. rewrite app_nil_r.
    apply os_facts.MkdirTemp_spec in E2 as [-> _].
    by apply os_facts.MkdirAll_quiet in E1.
  - assert (trace w2 = trace w) as Hw2.
    { apply os_facts.MkdirTemp_spec in E2 as [-> _].
      by apply os_facts.MkdirAll_quiet in E1. }
    assert (exists dl, download_log dl /\ trace w3 = trace w2 ++ dl) as (dl & Hdl & Hw3).
    { assert (forall r3 w3', dispatch env t tempDir executableBase w2 = (r3, w3') ->
                exists dl, download_log dl /\ trace w3' = trace w2 ++ dl) as Hd.
      { intros r3 w3'. unfold dispatch.
        destruct (TarballFetcher t) as [tf|], (BinaryFetcher t) as [bf|];
          try apply tarball_Fetch_log; try apply binary_Fetch_log.
        intros [= _ <-]. exists []. split; [by left|by rewrite app_nil_r]. }
      apply bind_inv in E3 as [([] & w3' & E3 & E4)|(e3 & E3 & _)].
      - destruct (Hd _ _ E3) as (dl & Hdl & Hw3'). exists dl. split; [done|].
        by rewrite (os_facts.Rename_quiet _ _ _ _ _ E4).
      - by apply Hd in E3. }
    exists dl. split; [done|]. simpl. by rewrite Hw3, Hw2.
Qed.

(** X4. Once the executable is resolved, a run logs one of three things: the
    exec alone; the exec, the call of the fetch function and what the fetch
    logs; or these followed by a second exec.  Both execs are of the resolved
    path with the arguments from the executable name on; the fetch makes at
    most one GET, of the URL it announces. *)
Theorem runExec_log (env : Env) (templateFile executableName : string)
    (rest : list string) (execPath : string) (fetchFunc : M unit) (w : World) :
  getConfig env executableName templateFile = Ok (execPath, fetchFunc) ->
  exists evs,
    trace (snd (runExec env templateFile executableName rest w)) = trace w ++ evs
    /\ run_log execPath (executableName :: rest) evs.
Proof.
  intros Hcfg. unfold runExec, Exec. rewrite Hcfg.
  assert (forall w1 r w2, fetchFunc w1 = (r, w2) ->
            exists dl, download_log dl /\ trace w2 = trace w1 ++ dl) as Hfetch.
  { destruct (getConfig_inv _ _ _ _ _ Hcfg) as (t & d & c & Ht & Hd & Hc).
    rewrite (getConfig_Ok _ _ _ _ _ _ Ht Hd Hc) in Hcfg. injection Hcfg as _ <-.
    intros w1 r w2. apply fetcher_log. }
  set (args := executableName :: rest).
  destruct (syscall_Exec env (fs w) execPath args) as [errno|]; simpl.
  2:{ exists [EvExec execPath args]. split; [done|].
      exists []. split; [by left|by left]. }
  case_bool_decide; simpl.
  2:{ exists [EvExec execPath args]. split; [done|].
      exists []. split; [by left|by left]. }
  destruct (fetchFunc _) as [[[]|err] w2] eqn:E2;
    destruct (Hfetch _ _ _ E2) as (dl & Hdl & Htr).
  - exists ([EvExec execPath args; EvFetch] ++ dl ++ [EvExec execPath args]).
    split; [|exists dl; split; [done|by right; right]].
    destruct (syscall_Exec env (fs w2) execPath args); simpl;
      rewrite Htr; simpl; by rewrite <- !app_assoc.
  - exists ([EvExec execPath args; EvFetch] ++ dl).
    split; [|exists dl; split; [done|by right; left]].
    simpl. rewrite Htr. simpl. by rewrite <- !app_assoc.
Qed.

Lemma runExec_log_witness :
  exists evs,
    trace (snd (runExec demo.env "binary.toml" "grep-like" ["-r"] demo.w0))
    = trace demo.w0 ++ evs
    /\ run_log "/home/u/.cache/polymorph/grep-like/v1.2.3/grep-like"
         ["grep-like"; "-r"] evs.
Proof.
  exact (runExec_log demo.env "binary.toml" "grep-like" ["-r"] _ _ demo.w0
           (getConfig_Ok demo.env "grep-like" "binary.toml" _ "v1.2.3"
              "/home/u/.cache" eq_refl eq_refl eq_refl)).
Defined.

Lemma getConfig_Err_iff (env : Env) (executableName templateFile : string) :
  (exists err, getConfig env executableName templateFile = Err err)
  <-> ((exists e, readTemplateFile env templateFile = Err e)
       \/ (exists t e, readTemplateFile env templateFile = Ok t
                       /\ ExpandTemplate env (Directory t) (Params t) = Err e)
       \/ (exists e, UserCacheDir env = Err e)).
Proof.
  unfold getConfig.
  destruct (readTemplateFile env templateFile) as [t|e1].
  2:{ split; [intros _; left; by eexists|intros _; by eexists]. }
  destruct (ExpandTemplate env (Directory t) (Params t)) as [d|e2] eqn:Hd.
  2:{ split; [intros _; right; left; by exists t, e2|intros _; by eexists]. }
  destruct (UserCacheDir env) as [c|e3].
  2:{ split; [intros _; right; right; by eexists|intros _; by eexists]. }
  split; [by intros [? [=]]|].
  intros [[? [=]]|[(t' & e & [= <-] & He)|[? [=]]]]. congruence.
Qed.

Lemma runExec_logs_exec (env : Env) (templateFile executableName : string)
    (rest : list string) (execPath : string) (fetchFunc : M unit) (w : World) :
  getConfig env executableName templateFile = Ok (execPath, fetchFunc) ->
  exists evs,
    trace (snd (runExec env templateFile executableName rest w))
    = trace w ++ EvExec execPath (executableName :: rest) :: evs.
Proof.
  intros Hcfg. pose proof (getConfig_silent _ _ _ _ _ Hcfg) as Hsilent.
  unfold runExec, Exec. rewrite Hcfg.
  set (args := executableName :: rest).
  destruct (syscall_Exec env (fs w) execPath args) as [errno|]; simpl;
    [|by exists []].
  case_bool_decide; simpl; [|by exists []].
  destruct (fetchFunc _) as [[[]|err] w2] eqn:E2;
    destruct (Hsilent _ _ _ E2) as (evs & Htr & _).
  - exists (EvFetch :: evs ++ [EvExec execPath args]).
    destruct (syscall_Exec env (fs w2) execPath args); simpl;
      rewrite Htr; simpl; by rewrite <- !app_assoc.
  - exists (EvFetch :: evs). simpl. rewrite Htr. simpl. by rewrite <- !app_assoc.
Qed.

(** X5. A run returns without having tried to execute or fetch anything
    exactly when the resolution fails: the template file cannot be read, its
    directory pattern does not expand, or there is no user cache directory. *)
Theorem runExec_nothing_tried (env : Env) (templateFile executableName : string)
    (rest : list string) (w : World) :
  trace (snd (runExec env templateFile executableName rest w)) = trace w
  <-> ((exists e, readTemplateFile env templateFile = Err e)
       \/ (exists t e, readTemplateFile env templateFile = Ok t
                       /\ ExpandTemplate env (Directory t) (Params t) = Err e)
       \/ (exists e, UserCacheDir env = Err e)).
Proof.
  rewrite <- (getConfig_Err_iff env executableName templateFile).
  destruct (getConfig env executableName templateFile) as [[execPath fetchFunc]|err]
    eqn:Hcfg.
  - destruct (runExec_logs_exec env templateFile executableName rest execPath
                fetchFunc w Hcfg) as (evs & Htr).
    split; [|by intros [? [=]]].
    intros Heq. rewrite Htr in Heq.
    apply (f_equal (@length event)) in Heq. rewrite length_app in Heq.
    simpl in Heq. lia.
  - split; [by eexists|]. intros _. unfold runExec. by rewrite Hcfg.
Qed.

(** The errors [getConfig] returns name the step that failed. *)
Lemma getConfig_Err_prefix (env : Env) (executableName templateFile : string)
    (err : error) :
  getConfig env executableName templateFile = Err err ->
  exists prefix msg,
    In prefix (stage_prefixes templateFile executableName)
    /\ Error err = prefix +:+ msg.
Proof.
  unfold getConfig, stage_prefixes.
  destruct (readTemplateFile env templateFile) as [t|e1].
  2:{ intros [= <-]. eexists _, (Error e1). split; [by left|].
      simpl. by rewrite !append_assoc. }
  destruct (ExpandTemplate env (Directory t) (Params t)) as [d|e2].
  2:{ intros [= <-]. eexists _, (Error e2). split; [by right; left|done]. }
  destruct (UserCacheDir env) as [c|e3]; [done|].
  intros [= <-]. eexists _, (Error e3). split; [by right; right; left|done].
Qed.

Lemma runExec_Err_prefix (env : Env) (templateFile executableName : string)
    (rest : list string) (w w' : World) (err : error) :
  runExec env templateFile executableName rest w = (Returned err, w') ->
  exists prefix msg,
    In prefix (stage_prefixes templateFile executableName)
    /\ Error err = prefix +:+ msg.
Proof.
  unfold runExec, Exec.
  destruct (getConfig env executableName templateFile) as [[execPath fetchFunc]|e]
    eqn:Hcfg.
  2:{ intros [= <- _]. by eapply getConfig_Err_prefix. }
  assert (forall e, exists prefix msg,
            In prefix (stage_prefixes templateFile executableName)
            /\ Error (ErrWrap ("error executing " +:+ executableName +:+ ": ") e)
               = prefix +:+ msg) as Hexec.
  { intros e. eexists _, (Error e). split; [|done]. unfold stage_prefixes.
    do 3 right. by left. }
  destruct (syscall_Exec env (fs w) execPath (executableName :: rest)) as [errno|];
    [|done].
  simpl. case_bool_decide; simpl; [|intros [= <- _]; apply Hexec].
  destruct (fetchFunc _) as [[[]|e] w2].
  - destruct (syscall_Exec env (fs w2) execPath (executableName :: rest)); [|done].
    intros [= <- _]. apply Hexec.
  - intros [= <- _]. eexists _, (Error e). split; [|done]. unfold stage_prefixes.
    do 4 right. by left.
Qed.

(** X6. The command never indexes its arguments out of range: with fewer than
    two arguments it is refused before anything is done.  Otherwise it ends
    with the process replaced, or with exit status 1 after writing, as the
    last line on the error stream, a message that opens with the step that
    failed. *)
Theorem execCmd_ends (env : Env) (args : list string) (w : World) :
  match fst (execCmd env args w) with
  | IndexPanic => False
  | ArgsRefused _ => (length args < 2)%nat /\ snd (execCmd env args w) = w
  | ProcessReplaced => (2 <= length args)%nat
  | Exited code =>
      code = 1
      /\ exists templateFile executableName rest prefix msg w1,
           args = templateFile :: executableName :: rest
           /\ In prefix (stage_prefixes templateFile executableName)
           /\ snd (execCmd env args w)
              = log (EvStderr (prefix +:+ msg +:+ newline)) w1
  end.
Proof.
  unfold execCmd, MinimumNArgs.
  destruct args as [|templateFile [|executableName rest]]; simpl; try (split; [lia|done]).
  destruct (runExec env templateFile executableName rest w) as [[|err] w1] eqn:Hrun;
    simpl; [lia|].
  split; [done|].
  destruct (runExec_Err_prefix _ _ _ _ _ _ _ Hrun) as (prefix & msg & Hin & Herr).
  exists templateFile, executableName, rest, prefix, msg, w1.
  split; [done|]. split; [done|]. by rewrite Herr, append_assoc.
Qed.

End launch_more.

(** ** Package [os]: what succeeds, and what it leaves *)
Module os_more.
Import path os vocab path_facts resolve_facts temp_facts.

Lemma lookup_insert_same (f : FS) (k : list string) (n : node) :
  k <> [] -> lookup (insert k n f) k = Some n.
Proof. intros Hk. destruct k; [done|]. simpl. unfold insert. by rewrite decide_True. Qed.

Lemma lookup_insert_other (f : FS) (k k' : list string) (n : node) :
  k' <> k -> lookup (insert k n f) k' = lookup f k'.
Proof.
  intros Hk. destruct k'; [done|]. simpl. unfold insert. by rewrite decide_False.
Qed.

Lemma lookup_fs (f : FS) (k : list string) (x : string) :
  lookup f (k ++ [x]) = f (k ++ [x]).
Proof. by destruct k. Qed.

Lemma prefix_snoc_inv (k l : list string) (x : string) :
  k `prefix_of` l ++ [x] -> k `prefix_of` l \/ k = l ++ [x].
Proof.
  intros [r Hr]. destruct r as [|y r _] using rev_ind.
  - right. by rewrite app_nil_r in Hr.
  - left. rewrite app_assoc in Hr. apply app_inj_tail in Hr as [-> _].
    by apply prefix_app_r.
Qed.

Lemma snoc_not_prefix (l : list string) (x : string) : ~ (l ++ [x]) `prefix_of` l.
Proof.
  intros H%prefix_length. rewrite length_app in H. simpl in H. lia.
Qed.

(** [MkdirAll], when it succeeds, leaves a directory at the path and at every
    path above it. *)
Lemma mkdir_all_ok (todo done : list string) (perm : Z) (f f' : FS) :
  (forall k, k `prefix_of` done -> is_dir (lookup f k)) ->
  mkdir_all done todo perm f = (None, f') ->
  forall k, k `prefix_of` done ++ todo -> is_dir (lookup f' k).
Proof.
  revert done f. induction todo as [|seg rest IH]; intros done f Hinv E k Hk;
    simpl in E.
  - injection E as <-. rewrite app_nil_r in Hk. auto.
  - assert (done ++ seg :: rest = (done ++ [seg]) ++ rest) as Happ
      by (by rewrite <- app_assoc).
    rewrite Happ in Hk.
    destruct (lookup f (done ++ [seg])) as [[p|]|] eqn:El; [| done |].
    + eapply IH; [|done..].
      intros k' [Hk'| ->]%prefix_snoc_inv; [auto|by exists p].
    + eapply IH; [|done..].
      intros k' [Hk'| ->]%prefix_snoc_inv.
      * rewrite lookup_insert_other; [auto|].
        intros ->. by apply snoc_not_prefix in Hk'.
      * rewrite lookup_insert_same by (by destruct done). by eexists.
Qed.

Lemma MkdirAll_ok (name : string) (perm : Z) (w w' : World) :
  MkdirAll name perm w = (Ok tt, w') ->
  forall k, k `prefix_of` resolve name -> is_dir (lookup (fs w') k).
Proof.
  unfold MkdirAll, PathError, fail. case_decide; [done|].
  destruct (mkdir_all [] (resolve name) perm (fs w)) as [[e|] f] eqn:Em; [done|].
  intros [= <-]. simpl. eapply (mkdir_all_ok _ []); [|done].
  intros k ->%prefix_nil_inv. by eexists.
Qed.

Lemma wf_insert (f : FS) (k : list string) (x : string) (n : node) :
  wf f -> is_dir (lookup f k) -> f (k ++ [x]) = None ->
  wf (insert (k ++ [x]) n f).
Proof.
  intros Hwf Hdir Hnone k' x' Hk'. unfold insert in Hk'.
  case_decide as Heq.
  - apply app_inj_tail in Heq as [-> ->].
    rewrite lookup_insert_other; [done|]. intros Heq.
    apply (f_equal (@length string)) in Heq. rewrite length_app in Heq.
    simpl in Heq. lia.
  - destruct (decide (k' = k ++ [x])) as [->|Hne].
    + specialize (Hwf _ _ Hk'). rewrite lookup_fs, Hnone in Hwf.
      by destruct Hwf.
    + rewrite lookup_insert_other by done. by apply (Hwf k' x').
Qed.

Lemma mkdir_all_wf (todo done : list string) (perm : Z) (f f' : FS) e :
  wf f -> is_dir (lookup f done) ->
  mkdir_all done todo perm f = (e, f') -> wf f'.
Proof.
  revert done f. induction todo as [|seg rest IH]; intros done f Hwf Hdone E;
    simpl in E.
  - by injection E as _ <-.
  - destruct (lookup f (done ++ [seg])) as [[p|]|] eqn:El.
    + eapply IH; [done| |done]. by exists p.
    + by injection E as _ <-.
    + rewrite lookup_fs in El. eapply IH; [| |done].
      * by apply wf_insert.
      * rewrite lookup_insert_same by (by destruct done). by eexists.
Qed.

Lemma MkdirAll_wf (name : string) (perm : Z) (w w' : World) r :
  wf (fs w) -> MkdirAll name perm w = (r, w') -> wf (fs w').
Proof.
  intros Hwf. unfold MkdirAll, PathError, fail. case_decide; [by intros [= _ <-]|].
  destruct (mkdir_all [] (resolve name) perm (fs w)) as [[e|] f] eqn:Em;
    intros [= _ <-]; simpl; eapply (mkdir_all_wf _ []); try done; by eexists.
Qed.

Lemma Mkdir_Ok (name : string) (perm : Z) (w w' : World) :
  Mkdir name perm w = (Ok tt, w') ->
  lookup (fs w) (resolve name) = None
  /\ is_dir (lookup (fs w) (removelast (resolve name))).
Proof.
  unfold Mkdir, PathError, fail.
  destruct (lookup (fs w) (resolve name)); [done|].
  destruct (lookup (fs w) (removelast (resolve name))) as [[p|]|]; try done.
  intros _. split; [done|by exists p].
Qed.

(** The directory [MkdirTemp] makes was not there, and is made in a
    directory. *)
Lemma mkdir_temp_loop_fresh (env : Env) (tries : nat) (dir prefix suffix : string)
    (w : World) name w' :
  mkdir_temp_loop env tries dir prefix suffix w = (Ok name, w') ->
  lookup (fs w) (resolve name) = None
  /\ is_dir (lookup (fs w) (removelast (resolve name))).
Proof.
  revert w. induction tries as [|tries IH]; intros w; simpl;
    unfold nextRandom;
    set (w1 := {| fs := fs w; seed := S (seed w); trace := trace w |});
    set (nm := prefix +:+ uitoa (random env (seed w)) +:+ suffix);
    destruct (Mkdir nm 448 w1) as [[[]|e] w2] eqn:Em.
  - intros [= <- _]. by apply Mkdir_Ok in Em.
  - destruct (os_facts.Mkdir_spec nm 448 w1) as [[e' He]|He]; [|congruence].
    rewrite He in Em. injection Em as <- <-. simpl errors_Is.
    unfold PathError, fail.
    repeat case_bool_decide; try destruct (lookup (fs w1) (resolve dir)); done.
  - intros [= <- _]. by apply Mkdir_Ok in Em.
  - destruct (os_facts.Mkdir_spec nm 448 w1) as [[e' He]|He]; [|congruence].
    rewrite He in Em. injection Em as <- <-. simpl errors_Is.
    unfold PathError, fail. case_bool_decide.
    + intros E. by apply IH in E.
    + case_bool_decide; try destruct (lookup (fs w1) (resolve dir)); done.
Qed.

Lemma MkdirTemp_fresh (env : Env) (dir pattern : string) (w : World) name w' :
  MkdirTemp env dir pattern w = (Ok name, w') ->
  lookup (fs w) (resolve name) = None
  /\ is_dir (lookup (fs w) (removelast (resolve name))).
Proof.
  unfold MkdirTemp. destruct (prefixAndSuffix pattern) as [[prefix suffix]|e]; [|done].
  apply mkdir_temp_loop_fresh.
Qed.

(** Where the temporary directory is, for any pattern [MkdirTemp] accepts. *)
Lemma temp_in_dir (env : Env) (dir pattern tempDir : string) (w w' : World) :
  MkdirTemp env dir pattern w = (Ok tempDir, w') ->
  exists nm,
    real nm /\ nm <> pattern
    /\ resolve tempDir = resolve dir ++ [nm]
    /\ fs w' = insert (resolve tempDir) (Dir 448) (fs w)
    /\ trace w' = trace w.
Proof.
  intros E.
  destruct (os_facts.MkdirTemp_spec _ _ _ _ _ _ E)
    as (Ht & p & q & n & Hps & -> & Hfs).
  destruct (temp_name_real _ _ _ n Hps) as [Hnm Hne].
  exists (p +:+ uitoa n +:+ q).
  split; [done|]. split; [done|]. split; [by apply resolve_temp|]. done.
Qed.

(** A directory moved to a name that is free, in a directory. *)
Lemma Rename_dir_Ok (old new : string) (w : World) (perm : Z) :
  lookup (fs w) (resolve old) = Some (Dir perm) ->
  lookup (fs w) (resolve new) = None ->
  is_dir (lookup (fs w) (removelast (resolve new))) ->
  ~ resolve old `prefix_of` resolve new ->
  Rename old new w
  = (Ok tt, set_fs (move_tree (resolve old) (resolve new) (fs w)) w).
Proof.
  intros Ho Hn [p Hp] Hpre. unfold Rename. rewrite Ho, Hn, Hp.
  by rewrite decide_False.
Qed.

(** A rename of a directory that succeeds found the new name free. *)
Lemma Rename_dir_inv (old new : string) (w w' : World) (perm : Z) :
  lookup (fs w) (resolve old) = Some (Dir perm) ->
  resolve old <> resolve new ->
  Rename old new w = (Ok tt, w') ->
  lookup (fs w) (resolve new) = None
  /\ w' = set_fs (move_tree (resolve old) (resolve new) (fs w)) w.
Proof.
  intros Ho Hne. unfold Rename, LinkError, fail. rewrite Ho.
  destruct (lookup (fs w) (resolve new)) as [[]|].
  - by rewrite decide_False.
  - by rewrite decide_False.
  - destruct (lookup (fs w) (removelast (resolve new))) as [[]|]; try done.
    case_decide; [done|]. by intros [= <-].
Qed.

End os_more.

(** ** The resolver: base names, and where the executable is *)
Section resolver_more.
Import path os vocab path_facts resolve_facts.

Lemma strip_slashes_name (p nm : string) :
  nm <> "" -> no_slash nm -> strip_slashes (p +:+ nm) = p +:+ nm.
Proof.
  intros Hne Hns. induction p as [|c p IH].
  - rewrite append_nil_l. clear Hne. induction nm as [|c nm IH]; [done|].
    destruct Hns as [Hc Hns]. simpl. rewrite IH by done.
    by rewrite decide_False.
  - rewrite append_cons. simpl. rewrite IH.
    assert (p +:+ nm <> "") by (by intros [_ ?]%append_eq_nil).
    case_decide; [by rewrite decide_False|done].
Qed.

Lemma Base_below (dir nm : string) :
  nm <> "" -> no_slash nm -> Base (dir +:+ String slash nm) = nm.
Proof.
  intros Hne Hns. unfold Base.
  rewrite decide_False by (by intros [_ ?]%append_eq_nil).
  change (dir +:+ String slash nm) with (dir +:+ "/" +:+ nm).
  rewrite <- append_assoc, strip_slashes_name, append_assoc by done.
  change (dir +:+ "/" +:+ nm) with (dir +:+ String slash nm).
  rewrite split_app_slash, (split_no_slash nm) by done. simpl.
  rewrite last_last. by rewrite decide_False.
Qed.

Lemma Base_name (nm : string) : nm <> "" -> no_slash nm -> Base nm = nm.
Proof.
  intros Hne Hns. unfold Base. rewrite decide_False by done.
  assert (strip_slashes nm = nm) as ->
    by exact (strip_slashes_name "" nm Hne Hns).
  rewrite split_no_slash by done. simpl. by rewrite decide_False.
Qed.

(** X7. Only the last element of the requested name counts: a request for
    [dir/name] is resolved, and fetched, as a request for [name]. *)
Theorem getConfig_base_only (env : Env) (dir nm templateFile : string) :
  nm <> "" -> no_slash nm ->
  getConfig env (dir +:+ "/" +:+ nm) templateFile = getConfig env nm templateFile.
Proof.
  intros Hne Hns. unfold getConfig.
  change (dir +:+ "/" +:+ nm) with (dir +:+ String slash nm).
  by rewrite Base_below, Base_name.
Qed.

Lemma getConfig_base_only_witness :
  getConfig demo.env ("/usr/local/bin" +:+ "/" +:+ "foo") "binary.toml"
  = getConfig demo.env "foo" "binary.toml".
Proof.
  apply getConfig_base_only; [discriminate|]. simpl. repeat split; discriminate.
Defined.

Lemma Join_head_nonempty (a : string) (l : list string) : a <> "" -> Join (a :: l) <> "".
Proof.
  intros Ha. unfold Join.
  assert (join_buf "" (a :: l) = join_buf a l) as ->.
  { simpl. by rewrite (decide_False (P := a = "")). }
  assert (join_buf a l <> "") as Hb.
  { rewrite join_buf_nonempty by done. by intros [? _]%append_eq_nil. }
  rewrite decide_False by done. apply Clean_nonempty.
Qed.

Lemma execCacheDir_nonempty (cacheDir name : string) :
  Join [cacheDir; "polymorph"; name] <> "".
Proof.
  unfold Join.
  assert (join_buf "" [cacheDir; "polymorph"; name] <> "") as Hb.
  { simpl. repeat case_decide; try done; by intros [? _]%append_eq_nil. }
  rewrite decide_False by done. apply Clean_nonempty.
Qed.

(** X8. The executable is looked for in the version directory: when the name
    the request resolves to stays below the directory it is joined to, the
    resolved path is the version directory followed by the elements of that
    name; for a real element it is an entry of the version directory. *)
Theorem getConfig_in_versionDir (env : Env)
    (executableName templateFile execPath : string) (fetchFunc : M unit)
    (t : ExecTemplate) (directory cacheDir : string) :
  readTemplateFile env templateFile = Ok t ->
  ExpandTemplate env (Directory t) (Params t) = Ok directory ->
  UserCacheDir env = Ok cacheDir ->
  getConfig env executableName templateFile = Ok (execPath, fetchFunc) ->
  confined (resolved_name t executableName) ->
  resolve execPath
  = resolve (Join [Join [cacheDir; "polymorph"; Name t]; directory])
    ++ rev (norm false (split (resolved_name t executableName)) [])
  /\ (real (resolved_name t executableName) ->
      resolve execPath
      = resolve (Join [Join [cacheDir; "polymorph"; Name t]; directory])
        ++ [resolved_name t executableName]).
Proof.
  intros Ht Hd Hc Hcfg Hconf.
  rewrite (getConfig_Ok _ _ _ _ _ _ Ht Hd Hc) in Hcfg. injection Hcfg as <- _.
  assert (Join [Join [cacheDir; "polymorph"; Name t]; directory] <> "") as Hv
    by apply Join_head_nonempty, execCacheDir_nonempty.
  split.
  - by apply resolve_Join_confined.
  - intros Hreal. by apply resolve_Join_real.
Qed.

Lemma getConfig_in_versionDir_witness :
  resolve "/home/u/.cache/polymorph/grep-like/v1.2.3/foo-v2"
  = resolve (Join [Join ["/home/u/.cache"; "polymorph"; "grep-like"]; "v1.2.3"])
    ++ rev (norm false (split "foo-v2") []).
Proof.
  refine (proj1 (getConfig_in_versionDir demo.env "foo" "binary.toml"
                   "/home/u/.cache/polymorph/grep-like/v1.2.3/foo-v2" _ _
                   "v1.2.3" "/home/u/.cache" eq_refl eq_refl eq_refl
                   (getConfig_Ok demo.env "foo" "binary.toml" _ "v1.2.3"
                      "/home/u/.cache" eq_refl eq_refl eq_refl) _)).
  vm_compute. repeat constructor. discriminate.
Defined.

End resolver_more.

(** ** The fetch routine: patterns it cannot serve, and what a success leaves *)
Section fetch_more.
Import path os vocab path_facts resolve_facts temp_facts fetch_facts dirs_facts
  os_more.

(** X9. A directory pattern that expands to a path with a slash cannot be
    fetched: [MkdirTemp] refuses it as a pattern, so the fetch fails before
    any download, and nothing but the cache directory of the tool is made. *)
Theorem fetch_nested_directory (env : Env) (t : ExecTemplate)
    (cacheDir execCacheDir directory versionedCacheDir executableBase : string)
    (w w' : World) (r : result unit) :
  has_slash directory = true ->
  fetcher env t cacheDir execCacheDir directory versionedCacheDir executableBase w
    = (r, w') ->
  trace w' = trace w
  /\ (exists e, r = Err e)
  /\ (forall w1,
        MkdirAll execCacheDir 493 w = (Ok tt, w1) ->
        w' = w1
        /\ r = Err (ErrWrap ("error creating temporary directory "
                             +:+ Join [cacheDir; directory] +:+ ": ")
                      (ErrPath "mkdirtemp" directory
                         (ErrNew "pattern contains path separator")))).
Proof.
  intros Hslash Hrun.
  assert (forall w1, MkdirTemp env execCacheDir directory w1
                     = (Err (ErrPath "mkdirtemp" directory
                               (ErrNew "pattern contains path separator")), w1))
    as Htemp.
  { intros w1. unfold MkdirTemp, prefixAndSuffix. by rewrite Hslash. }
  apply fetcher_run in Hrun
    as [(e1 & E1 & ->)|[(w1 & e1 & E1 & E2 & ->)|(w1 & tempDir & w2 & w3 & E1 & E2 & _)]].
  - split; [by apply os_facts.MkdirAll_quiet in E1|].
    split; [by eexists|]. intros; congruence.
  - rewrite Htemp in E2. injection E2 as <- <-.
    split; [by apply os_facts.MkdirAll_quiet in E1|].
    split; [by eexists|]. intros w1' E1'. split; congruence.
  - by rewrite Htemp in E2.
Qed.

Lemma fetch_nested_directory_witness :
  exists e,
    fst (fetcher demo.env demo.binary_template "/home/u/.cache"
           "/home/u/.cache/polymorph/grep-like" "v1/linux"
           "/home/u/.cache/polymorph/grep-like/v1/linux" "grep-like" demo.w0)
    = Err e.
Proof.
  exact (proj1 (proj2 (fetch_nested_directory demo.env demo.binary_template
                         "/home/u/.cache" "/home/u/.cache/polymorph/grep-like"
                         "v1/linux" "/home/u/.cache/polymorph/grep-like/v1/linux"
                         "grep-like" demo.w0 _ _ eq_refl (surjective_pairing _)))).
Defined.

Lemma degenerate_above (a d : string) :
  a <> "" -> d = "" \/ d = "." \/ d = ".." ->
  resolve (Join [a; d]) `prefix_of` resolve a.
Proof.
  intros Ha Hd. rewrite resolve_Join by done.
  destruct Hd as [->|[->| ->]].
  - change (norm true (split "") (rev (resolve a))) with (rev (resolve a)).
    by rewrite rev_involutive.
  - change (norm true (split ".") (rev (resolve a))) with (rev (resolve a)).
    by rewrite rev_involutive.
  - change (norm true (split "..") (rev (resolve a)))
      with (step true (rev (resolve a)) "..").
    destruct (rev (resolve a)) as [|top below] eqn:E.
    + apply prefix_nil.
    + apply (f_equal (@rev string)) in E. rewrite rev_involutive in E.
      rewrite E. unfold step. simpl. case_decide; [done|].
      simpl. by apply prefix_app_r.
Qed.

(** X10. A directory pattern that expands to the empty string, to [.] or to
    [..] cannot be fetched either: the version directory is then the cache
    directory of the tool or a directory above it, which exists when the
    rename is made, so that no fetch returns success. *)
Theorem fetch_degenerate_directory (env : Env) (t : ExecTemplate)
    (cacheDir execCacheDir directory executableBase : string)
    (w w' : World) (r : result unit) :
  execCacheDir <> "" ->
  directory = "" \/ directory = "." \/ directory = ".." ->
  fetcher env t cacheDir execCacheDir directory (Join [execCacheDir; directory])
    executableBase w = (r, w') ->
  exists e, r = Err e.
Proof.
  intros Hexec Hd Hrun.
  pose proof (degenerate_above execCacheDir directory Hexec Hd) as Habove.
  apply fetcher_run in Hrun
    as [(e1 & E1 & ->)|[(w1 & e1 & E1 & E2 & ->)|(w1 & tempDir & w2 & w3 & E1 & E2 & E3 & _)]];
    [by eexists..|].
  apply bind_inv in E3 as [([] & w3' & E3 & E4)|(e3 & E3 & ->)]; [|by eexists].
  destruct (temp_in_dir _ _ _ _ _ _ E2) as (nm & _ & _ & Hktemp & Hfs2 & _).
  set (kn := resolve (Join [execCacheDir; directory])) in *.
  assert (kn <> resolve tempDir) as Hne.
  { rewrite Hktemp. intros Heq. rewrite Heq in Habove.
    by apply snoc_not_prefix in Habove. }
  assert (is_dir (lookup (fs w3') kn)) as [p Hkn].
  { destruct (MkdirAll_ok _ _ _ _ E1 kn Habove) as [p Hp].
    destruct kn as [|x kn']; [by eexists|]. simpl in Hp. exists p. simpl.
    apply (dispatch_dirs _ _ _ _ _ _ _ E3). rewrite Hfs2.
    by rewrite os_facts.insert_other. }
  assert (lookup (fs w3') (resolve tempDir) = Some (Dir 448)) as Hko.
  { rewrite Hktemp, lookup_fs, <- Hktemp.
    apply (dispatch_dirs _ _ _ _ _ _ _ E3). rewrite Hfs2.
    unfold insert. by rewrite decide_True. }
  unfold Rename, LinkError, fail in E4. fold kn in E4. rewrite Hko, Hkn in E4.
  rewrite decide_False in E4 by done. injection E4 as <- _. by eexists.
Qed.

Lemma fetch_degenerate_directory_witness :
  exists e,
    fst (fetcher demo.env demo.binary_template "/home/u/.cache"
           "/home/u/.cache/polymorph/grep-like" ""
           (Join ["/home/u/.cache/polymorph/grep-like"; ""]) "grep-like" demo.w0)
    = Err e.
Proof.
  refine (fetch_degenerate_directory demo.env demo.binary_template
            "/home/u/.cache" "/home/u/.cache/polymorph/grep-like" ""
            "grep-like" demo.w0 _ _ _ _ (surjective_pairing _)).
  - discriminate.
  - by left.
Defined.

End fetch_more.

(** ** The fetch routine: what a success publishes *)
Section publish.
Import path os vocab path_facts resolve_facts temp_facts fetch_facts dirs_facts
  os_more.

(** The steps of a fetch that returns success. *)
Lemma fetcher_Ok_steps (env : Env) (t : ExecTemplate)
    (cacheDir execCacheDir directory versionedCacheDir executableBase : string)
    (w w' : World) :
  fetcher env t cacheDir execCacheDir directory versionedCacheDir executableBase w
    = (Ok tt, w') ->
  exists w1 tempDir w2 w3 w4,
    MkdirAll execCacheDir 493 w = (Ok tt, w1)
    /\ MkdirTemp env execCacheDir directory w1 = (Ok tempDir, w2)
    /\ dispatch env t tempDir executableBase w2 = (Ok tt, w3)
    /\ Rename tempDir versionedCacheDir w3 = (Ok tt, w4)
    /\ w' = RemoveAll tempDir w4.
Proof.
  intros Hrun.
  apply fetcher_run in Hrun
    as [(e1 & _ & [=])|[(w1 & e1 & _ & _ & [=])|(w1 & tempDir & w2 & w4 & E1 & E2 & E3 & ->)]].
  apply bind_inv in E3 as [([] & w3 & E3 & E4)|(e3 & _ & [=])].
  by exists w1, tempDir, w2, w3, w4.
Qed.

(** The temporary directory is still a directory when the fetcher is done. *)
Lemma temp_dir_kept (env : Env) (t : ExecTemplate)
    (execCacheDir directory executableBase tempDir : string)
    (w1 w2 w3 : World) (r : result unit) :
  MkdirTemp env execCacheDir directory w1 = (Ok tempDir, w2) ->
  dispatch env t tempDir executableBase w2 = (r, w3) ->
  lookup (fs w3) (resolve tempDir) = Some (Dir 448).
Proof.
  intros E2 E3.
  destruct (temp_in_dir _ _ _ _ _ _ E2) as (nm & _ & _ & Hkt & Hfs2 & _).
  rewrite Hkt, lookup_fs, <- Hkt.
  apply (dispatch_dirs _ _ _ _ _ _ _ E3). rewrite Hfs2.
  unfold insert. by rewrite decide_True.
Qed.

(** What was below the old name is below the new one, once a tree is moved
    beside itself and what is left of the old name removed. *)
Lemma moved_below (ke rel : list string) (nm d : string) (f : FS) :
  nm <> d ->
  remove_tree (ke ++ [nm]) (move_tree (ke ++ [nm]) (ke ++ [d]) f)
    ((ke ++ [d]) ++ rel)
  = f ((ke ++ [nm]) ++ rel).
Proof.
  intros Hne. unfold remove_tree, move_tree. rewrite decide_False.
  - rewrite decide_True by (by apply prefix_app_r). by rewrite drop_app_length.
  - intros Hpre.
    apply (siblings_below ke ((ke ++ [d]) ++ rel) d nm);
      [done|by apply prefix_app_r|done].
Qed.

(** X11. A fetch that returns success has published by one rename: the
    version directory did not exist when the download was complete, it now
    holds exactly what the download left in the temporary directory, nothing
    is left of the temporary directory, and every other path is as the
    download left it. *)
Theorem fetch_success_publishes (env : Env) (t : ExecTemplate)
    (cacheDir execCacheDir directory executableBase : string) (w w' : World) :
  execCacheDir <> "" -> real directory ->
  fetcher env t cacheDir execCacheDir directory (Join [execCacheDir; directory])
    executableBase w = (Ok tt, w') ->
  exists w1 tempDir w2 w3,
    MkdirAll execCacheDir 493 w = (Ok tt, w1)
    /\ MkdirTemp env execCacheDir directory w1 = (Ok tempDir, w2)
    /\ dispatch env t tempDir executableBase w2 = (Ok tt, w3)
    /\ lookup (fs w3) (resolve (Join [execCacheDir; directory])) = None
    /\ (forall rel, fs w' (resolve (Join [execCacheDir; directory]) ++ rel)
                    = fs w3 (resolve tempDir ++ rel))
    /\ (forall k, resolve tempDir `prefix_of` k -> fs w' k = None)
    /\ (forall k, ~ resolve (Join [execCacheDir; directory]) `prefix_of` k ->
                  ~ resolve tempDir `prefix_of` k -> fs w' k = fs w3 k)
    /\ trace w' = trace w3.
Proof.
  intros Hexec Hreal Hrun.
  destruct (fetcher_Ok_steps _ _ _ _ _ _ _ _ _ Hrun)
    as (w1 & tempDir & w2 & w3 & w4 & E1 & E2 & E3 & E4 & ->).
  destruct (temp_beside_version _ _ _ _ _ _ Hexec Hreal E2)
    as (nm & Hnm & Hkt & Hkv & _).
  pose proof (temp_dir_kept _ _ _ _ _ _ _ _ _ _ E2 E3) as Hko.
  assert (resolve tempDir <> resolve (Join [execCacheDir; directory])) as Hne.
  { rewrite Hkt, Hkv. by intros [_ ?]%app_inj_tail. }
  destruct (Rename_dir_inv _ _ _ _ _ Hko Hne E4) as [Hfree ->].
  exists w1, tempDir, w2, w3. repeat (split; [done|]).
  simpl. split; [|split; [|split; [|done]]].
  - intros rel. rewrite Hkt, Hkv. by apply moved_below.
  - intros k Hk. unfold remove_tree. by rewrite decide_True.
  - intros k Hkv' Hkt'. unfold remove_tree, move_tree. by rewrite !decide_False.
Qed.

Lemma fetch_success_publishes_witness :
  exists tempDir w3,
    forall rel,
      fs (snd (fetcher demo.env demo.binary_template "/home/u/.cache"
                 "/home/u/.cache/polymorph/grep-like" "v1.2.3"
                 (Join ["/home/u/.cache/polymorph/grep-like"; "v1.2.3"])
                 "grep-like" demo.w0))
         (resolve (Join ["/home/u/.cache/polymorph/grep-like"; "v1.2.3"]) ++ rel)
      = fs w3 (resolve tempDir ++ rel).
Proof.
  assert ("/home/u/.cache/polymorph/grep-like" <> "") as Hexec by discriminate.
  assert (fetcher demo.env demo.binary_template "/home/u/.cache"
            "/home/u/.cache/polymorph/grep-like" "v1.2.3"
            (Join ["/home/u/.cache/polymorph/grep-like"; "v1.2.3"])
            "grep-like" demo.w0
          = (Ok tt,
             snd (fetcher demo.env demo.binary_template "/home/u/.cache"
                    "/home/u/.cache/polymorph/grep-like" "v1.2.3"
                    (Join ["/home/u/.cache/polymorph/grep-like"; "v1.2.3"])
                    "grep-like" demo.w0))) as Hrun.
  { etransitivity; [apply surjective_pairing|].
    f_equal; vm_compute; reflexivity. }
  destruct (fetch_success_publishes demo.env demo.binary_template
              "/home/u/.cache" "/home/u/.cache/polymorph/grep-like" "v1.2.3"
              "grep-like" demo.w0 _ Hexec real_v123 Hrun)
    as (w1 & tempDir & w2 & w3 & _ & _ & _ & _ & Hsame & _).
  by exists tempDir, w3.
Defined.

(** What [binary.Fetch] does once its file is open and the download
    succeeds. *)
Lemma binary_Fetch_Ok (env : Env) (bf : Fetcher) (params : gmap string string)
    (tempDir executable url : string) (resp : Response) (w w1 : World)
    (k : list string) (perm : Z) (old : list byte) :
  ExpandTemplate env (URL bf) params = Ok url ->
  OpenFile (Join [tempDir; executable]) 493 w = (Ok k, w1) ->
  fs w1 k = Some (File perm old) ->
  http_Get env url = Ok resp -> BodyErr resp = None ->
  exists w',
    binary.Fetch env bf params tempDir executable w = (Ok tt, w')
    /\ fs w' k = Some (File perm (Body resp ++ drop (length (Body resp)) old))
    /\ (forall k', k' <> k -> fs w' k' = fs w1 k')
    /\ trace w'
       = trace w1 ++ [EvStderr ("Downloading binary from " +:+ url +:+ "..."
                                +:+ newline);
                      EvHttpGet url].
Proof.
  intros Hurl Hopen Hfile Hget Hbody. eexists. split.
  - unfold binary.Fetch, bind, wrap, lift, Stderr, http_GET, Copy.
    rewrite Hurl, Hopen. simpl. rewrite Hget, Hbody. reflexivity.
  - simpl. unfold write. rewrite Hfile. split; [|split].
    + unfold insert. by rewrite decide_True.
    + intros k' Hk'. by apply os_facts.insert_other.
    + by rewrite <- app_assoc.
Qed.



(** X13. A binary is installed where the resolver looks for it.  On a
    well-formed file system without the version directory, when the cache
    directory of the tool and the temporary directory can be made and the
    download succeeds, the fetch of a template with a binary fetcher only
    returns success; the version directory is then a directory with the mode
    of the temporary one (0700), the file named after the executable in it
    holds the body of the response with mode 0755, nothing is left of the
    temporary directory, and the log has the announcement and the GET. *)
Theorem binary_fetch_installs (env : Env) (t : ExecTemplate) (bf : Fetcher)
    (cacheDir execCacheDir directory executableBase url tempDir : string)
    (resp : Response) (w w1 w2 : World) :
  TarballFetcher t = None -> BinaryFetcher t = Some bf ->
  ExpandTemplate env (URL bf) (Params t) = Ok url ->
  http_Get env url = Ok resp -> BodyErr resp = None ->
  execCacheDir <> "" -> real directory -> real executableBase ->
  wf (fs w) ->
  lookup (fs w) (resolve (Join [execCacheDir; directory])) = None ->
  MkdirAll execCacheDir 493 w = (Ok tt, w1) ->
  MkdirTemp env execCacheDir directory w1 = (Ok tempDir, w2) ->
  exists w',
    fetcher env t cacheDir execCacheDir directory (Join [execCacheDir; directory])
      executableBase w = (Ok tt, w')
    /\ fs w' (resolve (Join [execCacheDir; directory])) = Some (Dir 448)
    /\ fs w' (resolve (Join [Join [execCacheDir; directory]; executableBase]))
       = Some (File 493 (Body resp))
    /\ (forall k, resolve tempDir `prefix_of` k -> fs w' k = None)
    /\ trace w'
       = trace w ++ [EvStderr ("Downloading binary from " +:+ url +:+ "..."
                               +:+ newline);
                     EvHttpGet url].
Proof.
  intros Htar Hbin Hurl Hget Hbody Hexec Hdir Hbase Hwf Habsent E1 E2.
  destruct (temp_beside_version _ _ _ _ _ _ Hexec Hdir E2)
    as (nm & Hnm & Hkt & Hkv & Hfs2 & Htr2 & Htemp).
  assert (Join [execCacheDir; directory] <> "") as Hvers
    by (by apply Join_head_nonempty).
  rewrite (resolve_Join_real _ _ Hvers Hbase), Hkv in *.
  set (ke := resolve execCacheDir) in *.
  set (kt := resolve tempDir) in *.
  pose proof (resolve_Join_real _ _ Htemp Hbase) as Hkf. fold kt in Hkf.
  set (kf := resolve (Join [tempDir; executableBase])) in *.
  pose proof (MkdirAll_wf _ _ _ _ _ Hwf E1) as Hwf1.
  destruct (MkdirTemp_fresh _ _ _ _ _ _ E2) as [Hfresh _]. fold kt in Hfresh.
  assert (fs w1 kf = None) as Hnone1.
  { destruct (fs w1 kf) eqn:Ef; [|done].
    destruct (Hwf1 kt executableBase) as [p Hp]; [rewrite <- Hkf; congruence|].
    congruence. }
  assert (kf <> kt) as Hkfkt.
  { rewrite Hkf. intros Heq. apply (f_equal (@length string)) in Heq.
    rewrite length_app in Heq. simpl in Heq. lia. }
  assert (OpenFile (Join [tempDir; executableBase]) 493 w2
          = (Ok kf, set_fs (insert kf (File 493 []) (fs w2)) w2)) as Hopen.
  { unfold OpenFile. fold kf.
    assert (lookup (fs w2) kf = None) as ->.
    { rewrite Hkf, lookup_fs, <- Hkf, Hfs2. by rewrite os_facts.insert_other. }
    rewrite Hkf, removelast_last.
    assert (lookup (fs w2) kt = Some (Dir 448)) as ->; [|done].
    rewrite Hkt, lookup_fs, <- Hkt, Hfs2. unfold insert. by rewrite decide_True. }
  destruct (binary_Fetch_Ok env bf (Params t) tempDir executableBase url resp
              w2 _ kf 493 [] Hurl Hopen) as (w3 & Hrun & Hfile & Hframe & Htr3);
    [simpl; unfold insert; by rewrite decide_True|done..|].
  simpl in Hframe, Htr3.
  assert (forall k, k <> kf -> k <> kt -> lookup (fs w3) k = lookup (fs w1) k)
    as Hsame.
  { intros k Hk1 Hk2. destruct k as [|x k']; [done|]. simpl.
    rewrite Hframe by done. rewrite os_facts.insert_other by done.
    rewrite Hfs2. by rewrite os_facts.insert_other. }
  assert (dispatch env t tempDir executableBase w2 = (Ok tt, w3)) as Hdisp.
  { unfold dispatch. by rewrite Htar, Hbin. }
  assert (kt <> ke ++ [directory]) as Hktkv.
  { rewrite Hkt. by intros [_ ?]%app_inj_tail. }
  assert (lookup (fs w3) kt = Some (Dir 448)) as Hold.
  { rewrite Hkt, lookup_fs, <- Hkt. rewrite Hframe by done.
    rewrite os_facts.insert_other by done. rewrite Hfs2.
    unfold insert. by rewrite decide_True. }
  assert (Rename tempDir (Join [execCacheDir; directory]) w3
          = (Ok tt, set_fs (move_tree kt (ke ++ [directory]) (fs w3)) w3)) as Hren.
  { rewrite <- Hkv. apply (Rename_dir_Ok _ _ _ 448); fold kt; rewrite ?Hkv.
    - done.
    - rewrite Hsame.
      + rewrite lookup_fs.
        rewrite (os_facts.MkdirAll_touches _ _ _ _ _ E1).
        * by rewrite <- lookup_fs.
        * apply snoc_not_prefix.
      + rewrite Hkf, Hkt. intros Heq. apply (f_equal (@length string)) in Heq.
        rewrite !length_app in Heq. simpl in Heq. lia.
      + done.
    - rewrite removelast_last. rewrite Hsame.
      + by apply (MkdirAll_ok _ _ _ _ E1).
      + rewrite Hkf, Hkt. intros Heq. apply (f_equal (@length string)) in Heq.
        rewrite !length_app in Heq. simpl in Heq. lia.
      + rewrite Hkt. intros Heq. apply (f_equal (@length string)) in Heq.
        rewrite !length_app in Heq. simpl in Heq. lia.
    - rewrite Hkt. intros Hpre.
      by apply (siblings_below ke (ke ++ [directory]) nm directory). }
  eexists. split.
  { unfold fetcher, bind, wrap, defer. rewrite E1, E2, Hdisp, Hren. reflexivity. }
  simpl. unfold remove_tree, move_tree. fold kt.
  assert (forall rel, ~ kt `prefix_of` (ke ++ [directory]) ++ rel) as Hnot.
  { intros rel Hpre. rewrite Hkt in Hpre.
    apply (siblings_below ke ((ke ++ [directory]) ++ rel) directory nm);
      [done|by apply prefix_app_r|done]. }
  split; [|split; [|split]].
  - rewrite decide_False by (rewrite <- (app_nil_r (ke ++ [directory])); apply Hnot).
    rewrite decide_True by done. rewrite drop_all, app_nil_r.
    rewrite Hkt, <- lookup_fs, <- Hkt. exact Hold.
  - rewrite decide_False by apply Hnot.
    rewrite decide_True by (by apply prefix_app_r).
    rewrite drop_app_length, <- Hkf, Hfile. by rewrite drop_nil, app_nil_r.
  - intros k Hk. by rewrite decide_True.
  - rewrite Htr3, Htr2. by rewrite (os_facts.MkdirAll_quiet _ _ _ _ _ E1).
Qed.

Lemma binary_fetch_installs_witness :
  exists w',
    fetcher demo.env demo.binary_template "/home/u/.cache"
      "/home/u/.cache/polymorph/grep-like" "v1.2.3"
      (Join ["/home/u/.cache/polymorph/grep-like"; "v1.2.3"]) "grep-like" demo.w0
    = (Ok tt, w')
    /\ fs w' (resolve (Join [Join ["/home/u/.cache/polymorph/grep-like"; "v1.2.3"];
                             "grep-like"]))
       = Some (File 493 demo.payload).
Proof.
  assert ("/home/u/.cache/polymorph/grep-like" <> "") as Hexec by discriminate.
  assert (real "grep-like") as Hbase.
  { repeat split; discriminate. }
  assert (wf (fs demo.w0)) as Hwf.
  { intros k x H. by destruct H. }
  assert (MkdirAll "/home/u/.cache/polymorph/grep-like" 493 demo.w0
          = (Ok tt, snd (MkdirAll "/home/u/.cache/polymorph/grep-like" 493 demo.w0)))
    as E1.
  { etransitivity; [apply surjective_pairing|]. f_equal; vm_compute; reflexivity. }
  assert (MkdirTemp demo.env "/home/u/.cache/polymorph/grep-like" "v1.2.3"
            (snd (MkdirAll "/home/u/.cache/polymorph/grep-like" 493 demo.w0))
          = (Ok "/home/u/.cache/polymorph/grep-like/v1.2.34242",
             snd (MkdirTemp demo.env "/home/u/.cache/polymorph/grep-like" "v1.2.3"
                    (snd (MkdirAll "/home/u/.cache/polymorph/grep-like" 493
                            demo.w0))))) as E2.
  { etransitivity; [apply surjective_pairing|]. f_equal; vm_compute; reflexivity. }
  destruct (binary_fetch_installs demo.env demo.binary_template
              {| URL := "https://example.test/grep-{{.version}}" |}
              "/home/u/.cache" "/home/u/.cache/polymorph/grep-like" "v1.2.3"
              "grep-like" "https://example.test/grep-1.2.3" _
              {| StatusCode := 200; Body := demo.payload; BodyErr := None |}
              demo.w0 _ _ eq_refl eq_refl eq_refl eq_refl eq_refl Hexec
              real_v123 Hbase Hwf eq_refl E1 E2)
    as (w' & Hrun & _ & Hfile & _).
  by exists w'.
Defined.

End publish.

(** ** Extraction *)
Section extraction.
Import path os vocab path_facts resolve_facts fetch_facts dirs_facts os_more.

(** X14. Entries that are neither directories nor regular files (links,
    devices, and the like) are skipped without an error: an archive is
    extracted as the archive without them is. *)
Theorem untar_skips_other_entries (r : tar.stream) (dir : string) (w : World) :
  tarball.untar r dir w = tarball.untar (extracted r) dir w.
Proof.
  revert w. induction r as [| |header data derr rest IH]; intros w; [done..|].
  simpl extracted. case_decide as Hflag.
  - simpl.
    match goal with |- context [match ?e w with _ => _ end] => destruct (e w) as [[[]|e1] w1] end;
      [apply IH|done].
  - simpl. rewrite !decide_False by tauto. simpl. apply IH.
Qed.

Lemma files_kept_refl w : files_kept w w.
Proof. intros k perm content Hk. by exists content. Qed.

Lemma files_kept_trans w1 w2 w3 :
  files_kept w1 w2 -> files_kept w2 w3 -> files_kept w1 w3.
Proof.
  intros H1 H2 k perm content Hk.
  destruct (H1 _ _ _ Hk) as [c2 Hc2]. by apply (H2 _ _ _ Hc2).
Qed.

Lemma insert_fresh_file (f : FS) (k0 : list string) (n : node) k perm content :
  lookup f k0 = None -> f k = Some (File perm content) ->
  insert k0 n f k = Some (File perm content).
Proof.
  intros H0 Hk. unfold insert. case_decide as Heq; [|done]. subst.
  destruct k0; [done|]. simpl in H0. congruence.
Qed.

Lemma mkdir_all_files (todo done : list string) (perm0 : Z) (f f' : FS) e :
  mkdir_all done todo perm0 f = (e, f') ->
  forall k perm content,
    f k = Some (File perm content) -> f' k = Some (File perm content).
Proof.
  revert done f. induction todo as [|seg rest IH]; intros done f E k perm content Hk;
    simpl in E.
  - by injection E as _ <-.
  - destruct (lookup f (done ++ [seg])) as [[]|] eqn:El.
    + by eapply IH.
    + by injection E as _ <-.
    + eapply IH; [done|]. by apply insert_fresh_file.
Qed.

Lemma MkdirAll_files (name : string) (perm : Z) : keeps_files (MkdirAll name perm).
Proof.
  intros w r w' E k perm' content Hk. exists content.
  unfold MkdirAll, PathError, fail in E.
  case_decide; [by injection E as _ <-|].
  destruct (mkdir_all [] (resolve name) perm (fs w)) as [[e|] f] eqn:Em;
    injection E as _ <-; simpl; by eapply mkdir_all_files.
Qed.

Lemma OpenFile_files (name : string) (perm : Z) : keeps_files (OpenFile name perm).
Proof.
  intros w r w' E k perm' content Hk. exists content.
  unfold OpenFile, PathError, fail in E.
  destruct (lookup (fs w) (resolve name)) as [[]|] eqn:El;
    [| |destruct (lookup (fs w) (removelast (resolve name))) as [[]|]];
    injection E as _ <-; try done.
  simpl. by apply insert_fresh_file.
Qed.

Lemma Copy_files k0 data derr : keeps_files (Copy k0 data derr).
Proof.
  intros w r w' E k perm content Hk.
  assert (w' = set_fs (write k0 data (fs w)) w) as ->
    by (destruct derr; by injection E as _ <-).
  simpl. unfold write. destruct (fs w k0) as [[p0|p0 old]|] eqn:E0;
    try by exists content.
  unfold insert. case_decide as Heq; [|by exists content]. subst.
  rewrite E0 in Hk. injection Hk as -> _. by eexists.
Qed.

Lemma keeps_files_bind {A B} (m : M A) (k : A -> M B) :
  keeps_files m -> (forall a, keeps_files (k a)) -> keeps_files (bind m k).
Proof.
  intros Hm Hk w r w' [(a & w1 & E1 & E2)|(e & E1 & _)]%bind_inv.
  - eapply files_kept_trans; [by eapply Hm|by eapply Hk].
  - by eapply Hm.
Qed.

Lemma keeps_files_wrap {A} prefix (m : M A) :
  keeps_files m -> keeps_files (wrap prefix m).
Proof.
  intros Hm w r w' [(a & E & _)|(e & E & _)]%wrap_inv; by eapply Hm.
Qed.

Lemma untar_files (r : tar.stream) (dir : string) : keeps_files (tarball.untar r dir).
Proof.
  induction r as [| |header data derr rest IH]; intros w res w'; simpl.
  - intros [= _ <-]. apply files_kept_refl.
  - intros [= _ <-]. apply files_kept_refl.
  - match goal with |- context [match ?e w with _ => _ end] => set (entry := e) end.
    assert (keeps_files entry) as Hentry.
    { unfold entry. repeat case_decide.
      - apply keeps_files_wrap, MkdirAll_files.
      - apply keeps_files_bind; [apply keeps_files_wrap, OpenFile_files|intros f].
        apply keeps_files_wrap, Copy_files.
      - intros w0 r0 w0' [= _ <-]. apply files_kept_refl. }
    destruct (entry w) as [[[]|e] w1] eqn:E.
    + intros E2. eapply files_kept_trans; [by eapply Hentry|by eapply IH].
    + intros [= _ <-]. by eapply Hentry.
Qed.

Lemma is_dir_kept (w w' : World) (k : list string) :
  dirs_kept w w' -> is_dir (lookup (fs w) k) -> is_dir (lookup (fs w') k).
Proof.
  intros Hkept [p Hp]. destruct k; [by exists p|]. exists p. by apply Hkept.
Qed.

Lemma is_file_kept (w w' : World) (k : list string) :
  files_kept w w' -> is_file (lookup (fs w) k) -> is_file (lookup (fs w') k).
Proof.
  intros Hkept (p & c & Hp). destruct k; [done|].
  destruct (Hkept _ _ _ Hp) as [c' Hc']. by exists p, c'.
Qed.

(** A file that is opened and written is a file. *)
Lemma open_copy_file (p1 p2 target : string) (mode : Z) data derr w w' :
  (let* f := wrap p1 (OpenFile target mode) in
   wrap p2 (Copy f data derr)) w = (Ok tt, w') ->
  is_file (lookup (fs w') (resolve target)).
Proof.
  intros [(f & w1 & E1 & E2)|(e & _ & [=])]%bind_inv.
  apply wrap_inv in E1 as [(f' & E1 & [= <-])|(e & _ & [=])].
  assert (f = resolve target /\ is_file (lookup (fs w1) f)) as [-> Hfile].
  { unfold OpenFile, PathError, fail in E1.
    destruct (lookup (fs w) (resolve target)) as [[p|p c]|] eqn:El; [done| |].
    - injection E1 as <- <-. split; [done|]. by exists p, c.
    - destruct (lookup (fs w) (removelast (resolve target))) as [[]|]; try done.
      injection E1 as <- <-. split; [done|]. simpl.
      destruct (resolve target) eqn:Ek; [done|].
      rewrite lookup_insert_same by done. by eexists _, _. }
  apply wrap_inv in E2 as [(? & E2 & _)|(? & _ & [=])].
  eapply is_file_kept; [|done]. by eapply Copy_files.
Qed.

(** What a successful extraction has made of its first entry. *)
Lemma untar_head_made (h : tar.Header) (data : list byte) (derr : option error)
    (rest : tar.stream) (dir : string) (w w' : World) :
  tarball.untar (tar.Entry h data derr rest) dir w = (Ok tt, w') ->
  materialised dir (fs w') h
  /\ exists w1, tarball.untar rest dir w1 = (Ok tt, w').
Proof.
  simpl.
  match goal with |- context [match ?e w with _ => _ end] => set (entry := e) end.
  destruct (entry w) as [[[]|e] w1] eqn:E; [|done].
  intros Hrest. split; [|by exists w1].
  pose proof (untar_dirs _ _ _ _ _ Hrest) as Hdirs.
  pose proof (untar_files _ _ _ _ _ Hrest) as Hfiles.
  unfold entry in E. split; intros Hflag.
  - rewrite decide_True in E by done.
    apply wrap_inv in E as [([] & E & _)|(? & _ & [=])].
    eapply is_dir_kept; [done|]. by apply (MkdirAll_ok _ _ _ _ E).
  - rewrite decide_False in E by (rewrite Hflag; discriminate).
    rewrite decide_True in E by done.
    eapply is_file_kept; [done|]. by eapply open_copy_file.
Qed.

(** X15. An extraction that succeeds has made every entry it handles: under
    the directory it extracts to, the target of each directory entry is a
    directory and the target of each regular file entry is a file, also when
    later entries of the archive went to the same places. *)
Theorem untar_materialises (r : tar.stream) (dir : string) (w w' : World) :
  tarball.untar r dir w = (Ok tt, w') ->
  Forall (materialised dir (fs w')) (entry_headers r).
Proof.
  revert w. induction r as [| |header data derr rest IH]; intros w Hrun.
  - constructor.
  - constructor.
  - destruct (untar_head_made _ _ _ _ _ _ _ Hrun) as [Hhead [w1 Hrest]].
    change (entry_headers (tar.Entry header data derr rest))
      with (header :: entry_headers rest).
    constructor; [exact Hhead|]. by apply (IH w1).
Qed.

Lemma untar_materialises_witness :
  Forall (materialised "/tmp/x"
            (fs (snd (tarball.untar demo.archive "/tmp/x" demo.w0))))
    (entry_headers demo.archive).
Proof.
  apply (untar_materialises demo.archive "/tmp/x" demo.w0).
  etransitivity; [apply surjective_pairing|]. f_equal; vm_compute; reflexivity.
Defined.

Lemma lookup_below (f : FS) (k rel : list string) :
  k <> [] -> lookup f (k ++ rel) = f (k ++ rel).
Proof. intros Hk. by destruct k. Qed.

(** X18. An archive is installed where the resolver looks for its entries.
    When the fetch of a template with a tarball fetcher returns success,
    every directory entry of the archive whose name stays below the
    directory it is extracted to is a directory under the version directory,
    and every such regular file entry is a file under it. *)
Theorem tarball_fetch_installs (env : Env) (t : ExecTemplate) (f : Fetcher)
    (cacheDir execCacheDir directory executableBase url : string)
    (resp : Response) (r : tar.stream) (w w' : World) :
  TarballFetcher t = Some f ->
  ExpandTemplate env (URL f) (Params t) = Ok url ->
  http_Get env url = Ok resp ->
  gzip_tar env (Body resp) (BodyErr resp) = Ok r ->
  execCacheDir <> "" -> real directory ->
  fetcher env t cacheDir execCacheDir directory (Join [execCacheDir; directory])
    executableBase w = (Ok tt, w') ->
  Forall (fun h => confined (tar.Name h) ->
                   materialised (Join [execCacheDir; directory]) (fs w') h)
    (entry_headers r).
Proof.
  intros Htar Hurl Hget Hgz Hexec Hdir Hrun.
  destruct (fetcher_Ok_steps _ _ _ _ _ _ _ _ _ Hrun)
    as (w1 & tempDir & w2 & w3 & w4 & E1 & E2 & E3 & E4 & ->).
  destruct (temp_facts.temp_beside_version _ _ _ _ _ _ Hexec Hdir E2)
    as (nm & Hnm & Hkt & Hkv & _ & _ & Htemp).
  pose proof (temp_dir_kept _ _ _ _ _ _ _ _ _ _ E2 E3) as Hko.
  assert (resolve tempDir <> resolve (Join [execCacheDir; directory])) as Hne.
  { rewrite Hkt, Hkv. by intros [_ ?]%app_inj_tail. }
  destruct (Rename_dir_inv _ _ _ _ _ Hko Hne E4) as [_ ->].
  assert (Join [execCacheDir; directory] <> "") as Hvers
    by (by apply Join_head_nonempty).
  unfold dispatch in E3. rewrite Htar in E3.
  unfold tarball.Fetch, bind, wrap, lift, Stderr, http_GET in E3.
  rewrite Hurl in E3. simpl in E3. rewrite Hget, Hgz in E3. clear Hgz.
  revert E3. generalize (log (EvHttpGet url)
                           (log (EvStderr ("Downloading tarball from " +:+ url
                                           +:+ "..." +:+ newline)) w2)).
  induction r as [| |header data derr rest IH]; intros w0 Hrun0.
  - constructor.
  - constructor.
  - destruct (untar_head_made _ _ _ _ _ _ _ Hrun0) as [[Hd Hf] [w0' Hrest]].
    change (entry_headers (tar.Entry header data derr rest))
      with (header :: entry_headers rest).
    constructor; [|by apply (IH w0')].
    intros Hconf. unfold materialised.
    rewrite (resolve_Join_confined _ _ Htemp Hconf) in Hd, Hf.
    rewrite (resolve_Join_confined _ _ Hvers Hconf).
    assert (resolve tempDir <> []) as Hkt'
      by (rewrite Hkt; by intros [_ ?]%app_eq_nil).
    assert (resolve (Join [execCacheDir; directory]) <> []) as Hkv'
      by (rewrite Hkv; by intros [_ ?]%app_eq_nil).
    rewrite lookup_below in Hd, Hf by done.
    rewrite lookup_below by done. simpl fs.
    rewrite Hkt, Hkv, moved_below by done. rewrite <- Hkt. by split.
Qed.

Lemma tarball_fetch_installs_witness :
  Forall (fun h => confined (tar.Name h) ->
                   materialised (Join ["/home/u/.cache/polymorph/grep-like"; "v1.2.3"])
                     (fs (snd (fetcher demo.env
                                 (demo.template_of "v{{.version}}"
                                    (demo.fetch_url
                                       "https://example.test/grep-{{.version}}.tar.gz")
                                    None)
                                 "/home/u/.cache"
                                 "/home/u/.cache/polymorph/grep-like" "v1.2.3"
                                 (Join ["/home/u/.cache/polymorph/grep-like"; "v1.2.3"])
                                 "grep-like" demo.w0))) h)
    (entry_headers demo.archive).
Proof.
  assert ("/home/u/.cache/polymorph/grep-like" <> "") as Hexec by discriminate.
  assert (ExpandTemplate demo.env "https://example.test/grep-{{.version}}.tar.gz"
            {[ "version" := "1.2.3" ]}
          = Ok "https://example.test/grep-1.2.3.tar.gz") as Hurl
    by (vm_compute; reflexivity).
  apply (tarball_fetch_installs demo.env
           (demo.template_of "v{{.version}}"
              (demo.fetch_url "https://example.test/grep-{{.version}}.tar.gz") None)
           {| URL := "https://example.test/grep-{{.version}}.tar.gz" |}
           "/home/u/.cache" "/home/u/.cache/polymorph/grep-like" "v1.2.3"
           "grep-like" "https://example.test/grep-1.2.3.tar.gz"
           {| StatusCode := 200; Body := [x1f; x8b; x01]; BodyErr := None |}
           demo.archive demo.w0 _ eq_refl Hurl eq_refl eq_refl Hexec real_v123).
  etransitivity; [apply surjective_pairing|]. f_equal; vm_compute; reflexivity.
Defined.

End extraction.

(** ** The earlier launcher and the present one *)
Section refactoring.
Import path os vocab fetch_facts dirs_facts.

Lemma legacy_untar_eq (r : tar.stream) (dir : string) (w : World) :
  legacy.untar r dir w = tarball.untar r dir w.
Proof.
  revert w. induction r as [| |header data derr rest IH]; intros w; [done..|].
  simpl.
  match goal with |- context [match ?e w with _ => _ end] => destruct (e w) as [[[]|e1] w1] end;
    [apply IH|done].
Qed.

(** X16. Moving the tarball fetcher to a package of its own kept its
    behaviour: for a template with a tarball fetcher, the fetch routine of
    the present launcher, given the cache directory of the tool also for its
    messages, returns the same result in the same world as the earlier
    [tarballFetcher]; given any other directory for its messages, it leaves
    the same world and succeeds in the same cases. *)
Theorem legacy_tarballFetcher_kept (env : Env) (t : ExecTemplate) (f : Fetcher)
    (cacheDir execCacheDir directory executableBase : string) (w : World) :
  TarballFetcher t = Some f ->
  legacy.tarballFetcher env f execCacheDir directory (Params t) w
  = fetcher env t execCacheDir execCacheDir directory
      (Join [execCacheDir; directory]) executableBase w
  /\ snd (fetcher env t cacheDir execCacheDir directory
            (Join [execCacheDir; directory]) executableBase w)
     = snd (legacy.tarballFetcher env f execCacheDir directory (Params t) w)
  /\ (fst (fetcher env t cacheDir execCacheDir directory
             (Join [execCacheDir; directory]) executableBase w) = Ok tt
      <-> fst (legacy.tarballFetcher env f execCacheDir directory (Params t) w)
          = Ok tt).
Proof.
  intros Htar.
  assert (legacy.tarballFetcher env f execCacheDir directory (Params t) w
          = fetcher env t execCacheDir execCacheDir directory
              (Join [execCacheDir; directory]) executableBase w) as Heq.
  { unfold legacy.tarballFetcher, fetcher, dispatch, tarball.Fetch,
      legacy.expandTemplate. rewrite Htar.
    fold (ExpandTemplate env (URL f) (Params t)).
    unfold bind, wrap, defer, lift, Stderr, http_GET.
    destruct (MkdirAll execCacheDir 493 w) as [[[]|e1] w1]; [|done].
    destruct (MkdirTemp env execCacheDir directory w1) as [[tempDir|e2] w2]; [|done].
    destruct (ExpandTemplate env (URL f) (Params t)) as [url|e3]; [|done].
    destruct (http_Get env url) as [resp|e4]; [|done].
    destruct (gzip_tar env (Body resp) (BodyErr resp)) as [r|e5]; [|done].
    rewrite legacy_untar_eq.
    by destruct (tarball.untar r tempDir _) as [[[]|e6] w3]. }
  split; [done|]. rewrite Heq.
  unfold fetcher, bind, wrap, defer.
  destruct (MkdirAll execCacheDir 493 w) as [[[]|e1] w1]; [|done].
  destruct (MkdirTemp env execCacheDir directory w1) as [[tempDir|e2] w2]; [|done].
  by destruct (dispatch env t tempDir executableBase w2) as [[[]|e3] w3].
Qed.

Lemma legacy_tarballFetcher_kept_witness :
  legacy.tarballFetcher demo.env
    {| URL := "https://example.test/grep-{{.version}}.tar.gz" |}
    "/home/u/.cache/polymorph/grep-like" "v1.2.3" {[ "version" := "1.2.3" ]}
    demo.w0
  = fetcher demo.env
      (demo.template_of "v{{.version}}"
         (demo.fetch_url "https://example.test/grep-{{.version}}.tar.gz") None)
      "/home/u/.cache/polymorph/grep-like" "/home/u/.cache/polymorph/grep-like"
      "v1.2.3" (Join ["/home/u/.cache/polymorph/grep-like"; "v1.2.3"])
      "grep-like" demo.w0.
Proof.
  exact (proj1 (legacy_tarballFetcher_kept demo.env
                  (demo.template_of "v{{.version}}"
                     (demo.fetch_url "https://example.test/grep-{{.version}}.tar.gz")
                     None)
                  {| URL := "https://example.test/grep-{{.version}}.tar.gz" |}
                  "/home/u/.cache" "/home/u/.cache/polymorph/grep-like" "v1.2.3"
                  "grep-like" demo.w0 eq_refl)).
Defined.

End refactoring.

(** ** A download that fails *)
Section failed_download.
Import path os vocab.

(** X17. [binary.Fetch] opens its file before it downloads: when the GET
    fails and the file did not exist, the call returns the error of the GET
    under its own message and leaves an empty file where the binary was to
    be, after having announced the download. *)
Theorem binary_Fetch_download_fails (env : Env) (bf : Fetcher)
    (params : gmap string string) (tempDir executable url : string)
    (e : error) (w : World) :
  ExpandTemplate env (URL bf) params = Ok url ->
  http_Get env url = Err e ->
  lookup (fs w) (resolve (Join [tempDir; executable])) = None ->
  is_dir (lookup (fs w) (removelast (resolve (Join [tempDir; executable])))) ->
  exists w',
    binary.Fetch env bf params tempDir executable w
    = (Err (ErrWrap ("error downloading binary " +:+ url +:+ ": ") e), w')
    /\ fs w' (resolve (Join [tempDir; executable])) = Some (File 493 [])
    /\ (forall k, k <> resolve (Join [tempDir; executable]) -> fs w' k = fs w k)
    /\ trace w'
       = trace w ++ [EvStderr ("Downloading binary from " +:+ url +:+ "..."
                               +:+ newline);
                     EvHttpGet url].
Proof.
  intros Hurl Hget Hnone [p Hp]. eexists. split.
  - unfold binary.Fetch, bind, wrap, lift, Stderr, http_GET, OpenFile.
    rewrite Hurl, Hnone, Hp. simpl. rewrite Hget. reflexivity.
  - simpl. split; [|split].
    + unfold insert. by rewrite decide_True.
    + intros k Hk. by apply os_facts.insert_other.
    + by rewrite <- app_assoc.
Qed.

Lemma binary_Fetch_download_fails_witness :
  exists w',
    binary.Fetch demo.env {| URL := "https://example.test/other-{{.version}}" |}
      {[ "version" := "1.2.3" ]} "/opt/tools" "other" demo.w_stale
    = (Err (ErrWrap ("error downloading binary "
                     +:+ "https://example.test/other-1.2.3" +:+ ": ")
              (ErrNew "dial tcp: connection refused")), w')
    /\ fs w' (resolve (Join ["/opt/tools"; "other"])) = Some (File 493 []).
Proof.
  assert (ExpandTemplate demo.env "https://example.test/other-{{.version}}"
            {[ "version" := "1.2.3" ]}
          = Ok "https://example.test/other-1.2.3") as Hurl
    by (vm_compute; reflexivity).
  assert (is_dir (lookup (fs demo.w_stale)
                    (removelast (resolve (Join ["/opt/tools"; "other"]))))) as Hdir
    by (exists 493; vm_compute; reflexivity).
  destruct (binary_Fetch_download_fails demo.env
              {| URL := "https://example.test/other-{{.version}}" |}
              {[ "version" := "1.2.3" ]} "/opt/tools" "other"
              "https://example.test/other-1.2.3"
              (ErrNew "dial tcp: connection refused") demo.w_stale
              Hurl eq_refl eq_refl Hdir)
    as (w' & Hrun & Hfile & _).
  by exists w'.
Defined.

End failed_download.
